(** * csv_compression: dictionary substitution of CSV cells

    A shallow embedding of [compress.py] and [decompress.py].

    - Cells are Python [str] values, embedded as [string]; a character is a
      code point below 256.
    - Python dictionaries keep insertion order, so they are association
      lists with unique keys ([Py.dict_get], [Py.dict_set]).
    - Exceptions are explicit: a computation that can raise returns a
      [Py.result]; the loops that write one row at a time return what was
      written together with the exception that stopped them, if any. *)

From Stdlib Require Import List String Ascii Bool Arith ZArith Lia.
From Stdlib Require Import Sorting.Sorted Sorting.Permutation.
From Stdlib Require Import DecimalString DecimalNat.
Import ListNotations.

Local Open Scope string_scope.
Local Open Scope list_scope.

Local Infix "+:+" := String.append (at level 60, right associativity).

(** ** The Python built-ins the two programs call *)

Module Py.

Inductive exn : Type :=
| KeyError
| ValueError
| IndexError
| CsvError.

Inductive result (A : Type) : Type :=
| Done (a : A)
| Raise (e : exn).
Arguments Done {A} a.
Arguments Raise {A} e.

Definition bind {A B : Type} (r : result A) (k : A -> result B) : result B :=
  match r with
  | Done a => k a
  | Raise e => Raise e
  end.

(** [len(s)] *)
Definition len (s : string) : nat := String.length s.

(** [s.startswith(p)] *)
Definition startswith (s p : string) : bool := String.prefix p s.

(** [s[1:]] *)
Definition tail (s : string) : string :=
  match s with
  | EmptyString => EmptyString
  | String _ t => t
  end.

(** [str(n)] for a non-negative integer: decimal digits, no leading zero. *)
Definition str (n : nat) : string :=
  NilEmpty.string_of_uint (Nat.to_uint n).

(** White space as [int] strips it: tab to carriage return, space, and
    outside ASCII the next-line character and the no-break space. *)
Definition isspace (c : ascii) : bool :=
  let n := nat_of_ascii c in
  ((9 <=? n) && (n <=? 13) || (n =? 32) || (n =? 133) || (n =? 160))%nat.

Definition digit_value (c : ascii) : option Z :=
  let n := nat_of_ascii c in
  if ((48 <=? n) && (n <=? 57))%nat then Some (Z.of_nat (n - 48)) else None.

Fixpoint lstrip (s : string) : string :=
  match s with
  | EmptyString => EmptyString
  | String c t => if isspace c then lstrip t else s
  end.

Fixpoint all_space (s : string) : bool :=
  match s with
  | EmptyString => true
  | String c t => isspace c && all_space t
  end.

(** The digits after the first one: single underscores may separate
    digits, white space may follow the last digit. *)
Fixpoint int_digits (s : string) (acc : Z) (after_underscore : bool)
  : option Z :=
  match s with
  | EmptyString => if after_underscore then None else Some acc
  | String c t =>
      match digit_value c with
      | Some d => int_digits t (10 * acc + d)%Z false
      | None =>
          if after_underscore then None
          else if Ascii.eqb c "_" then int_digits t acc true
          else if all_space s then Some acc
          else None
      end
  end.

Definition int_magnitude (s : string) : option Z :=
  match s with
  | EmptyString => None
  | String c t =>
      match digit_value c with
      | Some d => int_digits t d false
      | None => None
      end
  end.

(** [int(s)] in base ten; [None] stands for [ValueError].  The
    interpreter's configurable limit on the number of digits is not
    part of the model. *)
Definition int (s : string) : option Z :=
  match lstrip s with
  | String "+" t => int_magnitude t
  | String "-" t => option_map Z.opp (int_magnitude t)
  | s' => int_magnitude s'
  end.

(** [l.index(v)]: the first position of [v]; [None] stands for
    [ValueError]. *)
Fixpoint list_index (v : string) (l : list string) : option nat :=
  match l with
  | [] => None
  | x :: l' =>
      if String.eqb x v then Some 0
      else option_map S (list_index v l')
  end.

(** [l[i]]: negative indices count from the end; [None] stands for
    [IndexError]. *)
Definition getitem {A : Type} (l : list A) (i : Z) : option A :=
  let n := Z.of_nat (List.length l) in
  if (0 <=? i)%Z then nth_error l (Z.to_nat i)
  else if (- n <=? i)%Z then nth_error l (Z.to_nat (n + i))
  else None.

Section Dict.
Context {K V : Type} (eqb : K -> K -> bool).

(** [d[k]] / [k in d] *)
Fixpoint dict_get (k : K) (d : list (K * V)) : option V :=
  match d with
  | [] => None
  | (k', v) :: d' => if eqb k k' then Some v else dict_get k d'
  end.

(** [d[k] = v]: an existing key keeps its place, a new key goes last. *)
Fixpoint dict_set (k : K) (v : V) (d : list (K * V)) : list (K * V) :=
  match d with
  | [] => [(k, v)]
  | (k', v') :: d' =>
      if eqb k k' then (k', v) :: d' else (k', v') :: dict_set k v d'
  end.
End Dict.

(** [sorted(items, key=operator.itemgetter(1), reverse=True)]: the sort
    is stable, also when reversed, so an item stays in front of the later
    items that have the same count. *)
Fixpoint insert_desc (x : string * nat) (l : list (string * nat))
  : list (string * nat) :=
  match l with
  | [] => [x]
  | y :: l' => if (snd x <? snd y)%nat then y :: insert_desc x l' else x :: l
  end.

Definition sorted_desc (items : list (string * nat)) : list (string * nat) :=
  fold_right insert_desc [] items.

End Py.

Import Py.

Notation "x <- r ;; k" := (Py.bind r (fun x => k))
  (at level 61, r at next level, right associativity).

(** ** Data model *)

Definition Row : Type := list string.
Definition Table : Type := list Row.

(** [{phrase: counter}] for one column *)
Definition Counter : Type := list (string * nat).
(** [columns_counter]: [{column index: {phrase: counter}}] *)
Definition ColumnsCounter : Type := list (nat * Counter).
(** [columns_sorted], the conversion map: [{column index: [phrase, ...]}] *)
Definition ConversionMap : Type := list (nat * list string).
(** The conversion map as [json.loads] returns it: the keys are strings. *)
Definition LoadedMap : Type := list (string * list string).

(** ** compress.py *)

(** Lines 76-79, on the inner dictionary of one column. *)
Definition count_value (column_value : string) (column : Counter) : Counter :=
  match dict_get String.eqb column_value column with
  | Some n => dict_set String.eqb column_value (n + 1) column
  | None => dict_set String.eqb column_value 1 column
  end.

(** Lines 74-79.  [columns_counter] is a [defaultdict(dict)]: reading a
    missing column creates its empty dictionary. *)
Definition count_cell (columns_counter : ColumnsCounter) (index : nat)
  (column_value : string) : ColumnsCounter :=
  if (len column_value <=? 2)%nat then columns_counter
  else
    let column :=
      match dict_get Nat.eqb index columns_counter with
      | Some column => column
      | None => []
      end in
    dict_set Nat.eqb index (count_value column_value column) columns_counter.

(** Line 72, [for index, column_value in enumerate(row)], from [index] on. *)
Fixpoint count_row (columns_counter : ColumnsCounter) (index : nat) (row : Row)
  : ColumnsCounter :=
  match row with
  | [] => columns_counter
  | column_value :: rest =>
      count_row (count_cell columns_counter index column_value) (S index) rest
  end.

(** Lines 70-79. *)
Definition count_table (table : Table) : ColumnsCounter :=
  fold_left (fun columns_counter row => count_row columns_counter 0 row)
    table [].

(** Lines 84-86 for one column.  [x[0] is not ''] compares with the empty
    string, of which the interpreter keeps one object. *)
Definition rank_column (column : Counter) : list string :=
  map fst
    (filter (fun x => negb (String.eqb (fst x) EmptyString))
       (sorted_desc column)).

(** Lines 82-87. *)
Definition sort_columns (columns_counter : ColumnsCounter) : ConversionMap :=
  fold_left
    (fun columns_sorted entry =>
       dict_set Nat.eqb (fst entry) (rank_column (snd entry)) columns_sorted)
    columns_counter [].

Definition get_conversion_map (table : Table) : ConversionMap :=
  sort_columns (count_table table).

(** [conversion_map[index]] on the [defaultdict(list)] that
    [get_conversion_map] returns. *)
Definition column_list (conversion_map : ConversionMap) (index : nat)
  : list string :=
  match dict_get Nat.eqb index conversion_map with
  | Some l => l
  | None => []
  end.

(** Lines 109-112 for one cell.  A missing column is created empty by the
    [defaultdict], and [index] then raises, so the new entry is never seen. *)
Definition compress_cell (conversion_map : ConversionMap) (index : nat)
  (column_value : string) : result string :=
  if (len column_value <=? 2)%nat then Done column_value
  else
    match list_index column_value (column_list conversion_map index) with
    | Some pos => Done ("&" +:+ str pos)
    | None => Raise ValueError
    end.

(** Lines 107-112: the row is updated in place, cell after cell. *)
Fixpoint compress_row_from (conversion_map : ConversionMap) (index : nat)
  (row : Row) : result Row :=
  match row with
  | [] => Done []
  | column_value :: rest =>
      cell <- compress_cell conversion_map index column_value ;;
      rest' <- compress_row_from conversion_map (S index) rest ;;
      Done (cell :: rest')
  end.

Definition compress_row (conversion_map : ConversionMap) (row : Row)
  : result Row :=
  compress_row_from conversion_map 0 row.

(** [for row in table: ...; csv_writer.writerow(row)]: the rows handed to
    the writer, and the exception that ended the loop, if any. *)
Fixpoint write_rows (transform : Row -> result Row) (table : Table)
  : list Row * option exn :=
  match table with
  | [] => ([], None)
  | row :: rest =>
      match transform row with
      | Raise e => ([], Some e)
      | Done row' =>
          let (written, e) := write_rows transform rest in
          (row' :: written, e)
      end
  end.

(** Lines 106-113. *)
Definition compress_rows (conversion_map : ConversionMap) (table : Table)
  : list Row * option exn :=
  write_rows (compress_row conversion_map) table.

(** ** decompress.py *)

(** Lines 34-41 for one cell. *)
Definition decompress_cell (conversion_map : LoadedMap) (index : nat)
  (column_value : string) : result string :=
  if startswith column_value "&" then
    match dict_get String.eqb (str index) conversion_map with
    | None => Raise KeyError
    | Some conversion_list =>
        match int (tail column_value) with
        | None => Raise ValueError
        | Some pos =>
            match getitem conversion_list pos with
            | None => Raise IndexError
            | Some sub_text => Done sub_text
            end
        end
    end
  else Done column_value.

(** Lines 32-41. *)
Fixpoint decompress_row_from (conversion_map : LoadedMap) (index : nat)
  (row : Row) : result Row :=
  match row with
  | [] => Done []
  | column_value :: rest =>
      cell <- decompress_cell conversion_map index column_value ;;
      rest' <- decompress_row_from conversion_map (S index) rest ;;
      Done (cell :: rest')
  end.

Definition decompress_row (conversion_map : LoadedMap) (row : Row)
  : result Row :=
  decompress_row_from conversion_map 0 row.

(** Lines 31-42. *)
Definition decompress_rows (conversion_map : LoadedMap) (table : Table)
  : list Row * option exn :=
  write_rows (decompress_row conversion_map) table.

(** What [json.dump] followed by [json.loads] does to the conversion map:
    the integer keys come back as their decimal strings. *)
Definition loaded (conversion_map : ConversionMap) : LoadedMap :=
  map (fun entry => (str (fst entry), snd entry)) conversion_map.

(** ** The file formats

    [json.dump], [json.loads], [csv.writer], [csv.reader] and the text file
    object belong to the Python library; they are modelled here as far as
    the two programs use them: the JSON text of a dictionary of lists of
    strings, and the [excel] dialect of the csv module. *)

Module Fmt.

Definition DQUOTE : ascii := "034"%char.
Definition BACKSLASH : ascii := "092"%char.
Definition CR : ascii := "013"%char.
Definition LF : ascii := "010"%char.
Definition COMMA : ascii := ","%char.

Definition CRLF : string := String CR (String LF EmptyString).

(** *** json.dump, with [ensure_ascii] and the default separators *)

Definition hex_digit (n : nat) : ascii :=
  nth n
    ["0"; "1"; "2"; "3"; "4"; "5"; "6"; "7"; "8"; "9";
     "a"; "b"; "c"; "d"; "e"; "f"]%char "0"%char.

Definition json_escape (c : ascii) : string :=
  let n := nat_of_ascii c in
  if Ascii.eqb c DQUOTE then String BACKSLASH (String DQUOTE EmptyString)
  else if Ascii.eqb c BACKSLASH
  then String BACKSLASH (String BACKSLASH EmptyString)
  else if Ascii.eqb c LF then "\n"
  else if Ascii.eqb c CR then "\r"
  else if Ascii.eqb c "009" then "\t"
  else if Ascii.eqb c "008" then "\b"
  else if Ascii.eqb c "012" then "\f"
  else if ((32 <=? n) && (n <=? 126))%nat then String c EmptyString
  else
    "\u00"
    +:+ String (hex_digit (n / 16)) (String (hex_digit (n mod 16)) EmptyString).

Fixpoint json_escape_all (s : string) : string :=
  match s with
  | EmptyString => EmptyString
  | String c t => json_escape c +:+ json_escape_all t
  end.

Definition json_string (s : string) : string :=
  String DQUOTE (json_escape_all s +:+ String DQUOTE EmptyString).

Definition json_list (l : list string) : string :=
  "[" +:+ String.concat ", " (map json_string l) +:+ "]".

Definition json_item (entry : nat * list string) : string :=
  json_string (str (fst entry)) +:+ ": " +:+ json_list (snd entry).

Definition json_dump (conversion_map : ConversionMap) : string :=
  "{" +:+ String.concat ", " (map json_item conversion_map) +:+ "}".

(** *** json.loads, for documents that are a conversion map *)

Inductive token : Type :=
| LBRACE | RBRACE | LBRACKET | RBRACKET | COLON | SEP
| STR (s : string).

Definition json_space (c : ascii) : bool :=
  Ascii.eqb c " " || Ascii.eqb c "009" || Ascii.eqb c LF || Ascii.eqb c CR.

Definition punctuation (c : ascii) : option token :=
  if Ascii.eqb c "{" then Some LBRACE
  else if Ascii.eqb c "}" then Some RBRACE
  else if Ascii.eqb c "[" then Some LBRACKET
  else if Ascii.eqb c "]" then Some RBRACKET
  else if Ascii.eqb c ":" then Some COLON
  else if Ascii.eqb c "," then Some SEP
  else None.

Definition hex_value (c : ascii) : option nat :=
  let n := nat_of_ascii c in
  if ((48 <=? n) && (n <=? 57))%nat then Some (n - 48)
  else if ((97 <=? n) && (n <=? 102))%nat then Some (n - 87)
  else if ((65 <=? n) && (n <=? 70))%nat then Some (n - 55)
  else None.

(** [\uXXXX]; a code point of 256 or more is not a character of the
    model. *)
Definition unicode_escape (h1 h2 h3 h4 : ascii) : option ascii :=
  match hex_value h1, hex_value h2, hex_value h3, hex_value h4 with
  | Some 0, Some 0, Some a, Some b => Some (ascii_of_nat (16 * a + b))
  | _, _, _, _ => None
  end.

Definition simple_escape (c : ascii) : option ascii :=
  if Ascii.eqb c DQUOTE then Some DQUOTE
  else if Ascii.eqb c BACKSLASH then Some BACKSLASH
  else if Ascii.eqb c "/" then Some "/"%char
  else if Ascii.eqb c "n" then Some LF
  else if Ascii.eqb c "r" then Some CR
  else if Ascii.eqb c "t" then Some "009"%char
  else if Ascii.eqb c "b" then Some "008"%char
  else if Ascii.eqb c "f" then Some "012"%char
  else None.

Definition cons_token (t : token) (r : option (list token))
  : option (list token) :=
  option_map (cons t) r.

Definition rev_string (acc : list ascii) : string :=
  string_of_list_ascii (rev acc).

(** The scanner: [within] holds the characters of the string literal
    being read, last one first, or [None] between literals. *)
Fixpoint json_tokens (within : option (list ascii)) (s : string)
  : option (list token) :=
  match within, s with
  | None, EmptyString => Some []
  | Some _, EmptyString => None
  | None, String c t =>
      if json_space c then json_tokens None t
      else if Ascii.eqb c DQUOTE then json_tokens (Some []) t
      else
        match punctuation c with
        | Some p => cons_token p (json_tokens None t)
        | None => None
        end
  | Some acc, String c t =>
      if Ascii.eqb c DQUOTE then
        cons_token (STR (rev_string acc)) (json_tokens None t)
      else if Ascii.eqb c BACKSLASH then
        match t with
        | String "u" (String h1 (String h2 (String h3 (String h4 t')))) =>
            match unicode_escape h1 h2 h3 h4 with
            | Some x => json_tokens (Some (x :: acc)) t'
            | None => None
            end
        | String e t' =>
            match simple_escape e with
            | Some x => json_tokens (Some (x :: acc)) t'
            | None => None
            end
        | EmptyString => None
        end
      else if (nat_of_ascii c <? 32)%nat then None
      else json_tokens (Some (c :: acc)) t
  end.

(** The parser over tokens: where it stands in
    [{ key : [ item , ... ] , ... }]. *)
Inductive place : Type :=
| AtStart
| AtFirstKey
| AtKey (d : LoadedMap)
| AtColon (d : LoadedMap) (k : string)
| AtList (d : LoadedMap) (k : string)
| AtFirstItem (d : LoadedMap) (k : string)
| AtItem (d : LoadedMap) (k : string) (items : list string)
| AfterItem (d : LoadedMap) (k : string) (items : list string)
| AfterList (d : LoadedMap)
| AtEnd (d : LoadedMap).

Definition json_step (p : place) (t : token) : option place :=
  match p, t with
  | AtStart, LBRACE => Some AtFirstKey
  | AtFirstKey, RBRACE => Some (AtEnd [])
  | AtFirstKey, STR k => Some (AtColon [] k)
  | AtKey d, STR k => Some (AtColon d k)
  | AtColon d k, COLON => Some (AtList d k)
  | AtList d k, LBRACKET => Some (AtFirstItem d k)
  | AtFirstItem d k, RBRACKET => Some (AfterList (dict_set String.eqb k [] d))
  | AtFirstItem d k, STR v => Some (AfterItem d k [v])
  | AtItem d k items, STR v => Some (AfterItem d k (items ++ [v]))
  | AfterItem d k items, SEP => Some (AtItem d k items)
  | AfterItem d k items, RBRACKET =>
      Some (AfterList (dict_set String.eqb k items d))
  | AfterList d, SEP => Some (AtKey d)
  | AfterList d, RBRACE => Some (AtEnd d)
  | _, _ => None
  end.

Fixpoint json_parse (p : place) (ts : list token) : option LoadedMap :=
  match ts with
  | [] => match p with AtEnd d => Some d | _ => None end
  | t :: ts' =>
      match json_step p t with
      | Some p' => json_parse p' ts'
      | None => None
      end
  end.

(** The conversion map that [json.loads] returns for the JSON text of a
    dictionary of lists of strings.  [None] for any other text, whether
    [json.loads] raises on it or returns a value of another shape: what the
    decoder does then is not part of the model. *)
Definition json_loads (s : string) : option LoadedMap :=
  match json_tokens None s with
  | Some ts => json_parse AtStart ts
  | None => None
  end.

(** *** csv.writer, [excel] dialect: minimal quoting, [\r\n] ends a row *)

Definition special (c : ascii) : bool :=
  Ascii.eqb c COMMA || Ascii.eqb c DQUOTE || Ascii.eqb c CR || Ascii.eqb c LF.

Fixpoint needs_quotes (field : string) : bool :=
  match field with
  | EmptyString => false
  | String c t => special c || needs_quotes t
  end.

Fixpoint double_quotes (field : string) : string :=
  match field with
  | EmptyString => EmptyString
  | String c t =>
      if Ascii.eqb c DQUOTE then String c (String c (double_quotes t))
      else String c (double_quotes t)
  end.

Definition quoted (field : string) : string :=
  String DQUOTE (double_quotes field +:+ String DQUOTE EmptyString).

Definition csv_field (field : string) : string :=
  if needs_quotes field then quoted field else field.

(** A row whose only field is empty is written quoted. *)
Definition writerow (row : Row) : string :=
  match row with
  | [EmptyString] => quoted EmptyString +:+ CRLF
  | _ =>
      String.concat (String COMMA EmptyString) (map csv_field row) +:+ CRLF
  end.

Fixpoint writerows (rows : list Row) : string :=
  match rows with
  | [] => EmptyString
  | row :: rest => writerow row +:+ writerows rest
  end.

(** *** The text file, opened with [newline=''] *)

(** [f.readline()]: the line with its ending, and what follows it. *)
Fixpoint readline (s : string) : string * string :=
  match s with
  | EmptyString => (EmptyString, EmptyString)
  | String c t =>
      if Ascii.eqb c LF then (String c EmptyString, t)
      else if Ascii.eqb c CR then
        match t with
        | String c' t' =>
            if Ascii.eqb c' LF then (String c (String c' EmptyString), t')
            else (String c EmptyString, t)
        | EmptyString => (String c EmptyString, t)
        end
      else
        let (line, rest) := readline t in (String c line, rest)
  end.

(** Iterating over the file: its lines, endings kept. *)
Fixpoint file_lines (s : string) : list string :=
  match s with
  | EmptyString => []
  | String c t =>
      if Ascii.eqb c LF then String c EmptyString :: file_lines t
      else if Ascii.eqb c CR then
        match t with
        | String c' t' =>
            if Ascii.eqb c' LF
            then String c (String c' EmptyString) :: file_lines t'
            else String c EmptyString :: file_lines t
        | EmptyString => [String c EmptyString]
        end
      else
        match file_lines t with
        | [] => [String c EmptyString]
        | line :: rest => String c line :: rest
        end
  end.

(** *** csv.reader, [excel] dialect, not strict

    The reader's limit on the length of a field ([csv.field_size_limit],
    131072 characters unless changed) is not part of the model: the reader
    is modelled for fields within the limit. *)

Inductive parser_state : Type :=
| START_RECORD
| START_FIELD
| IN_FIELD
| IN_QUOTED_FIELD
| QUOTE_IN_QUOTED_FIELD
| EAT_CRNL.

(** The reader object: [field] and [fields] hold the newest first. *)
Record reader : Type := mkReader {
  state : parser_state;
  field : list ascii;
  fields : list string
}.

Definition parse_reset : reader := mkReader START_RECORD [] [].

Definition parse_add_char (r : reader) (c : ascii) (st : parser_state)
  : reader :=
  mkReader st (c :: field r) (fields r).

Definition parse_save_field (r : reader) (st : parser_state) : reader :=
  mkReader st [] (rev_string (field r) :: fields r).

Definition set_state (r : reader) (st : parser_state) : reader :=
  mkReader st (field r) (fields r).

Definition is_newline (c : ascii) : bool := Ascii.eqb c LF || Ascii.eqb c CR.

Definition start_field (r : reader) (c : ascii) : reader :=
  if is_newline c then parse_save_field r EAT_CRNL
  else if Ascii.eqb c DQUOTE then set_state r IN_QUOTED_FIELD
  else if Ascii.eqb c COMMA then parse_save_field r START_FIELD
  else parse_add_char r c IN_FIELD.

(** [parse_process_char] on a character of the line. *)
Definition parse_process_char (r : reader) (c : ascii) : result reader :=
  match state r with
  | START_RECORD =>
      if is_newline c then Done (set_state r EAT_CRNL)
      else Done (start_field r c)
  | START_FIELD => Done (start_field r c)
  | IN_FIELD =>
      if is_newline c then Done (parse_save_field r EAT_CRNL)
      else if Ascii.eqb c COMMA then Done (parse_save_field r START_FIELD)
      else Done (parse_add_char r c IN_FIELD)
  | IN_QUOTED_FIELD =>
      if Ascii.eqb c DQUOTE then Done (set_state r QUOTE_IN_QUOTED_FIELD)
      else Done (parse_add_char r c IN_QUOTED_FIELD)
  | QUOTE_IN_QUOTED_FIELD =>
      if Ascii.eqb c DQUOTE then Done (parse_add_char r c IN_QUOTED_FIELD)
      else if Ascii.eqb c COMMA then Done (parse_save_field r START_FIELD)
      else if is_newline c then Done (parse_save_field r EAT_CRNL)
      else Done (parse_add_char r c IN_FIELD)
  | EAT_CRNL =>
      if is_newline c then Done r else Raise CsvError
  end.

(** [parse_process_char] at the end of the line. *)
Definition parse_process_eol (r : reader) : reader :=
  match state r with
  | START_RECORD => r
  | START_FIELD | IN_FIELD | QUOTE_IN_QUOTED_FIELD =>
      parse_save_field r START_RECORD
  | IN_QUOTED_FIELD => r
  | EAT_CRNL => set_state r START_RECORD
  end.

Fixpoint parse_line (r : reader) (line : string) : result reader :=
  match line with
  | EmptyString => Done (parse_process_eol r)
  | String c t => r' <- parse_process_char r c ;; parse_line r' t
  end.

Definition at_record_start (r : reader) : bool :=
  match state r with START_RECORD => true | _ => false end.

Definition in_quoted_field (r : reader) : bool :=
  match state r with IN_QUOTED_FIELD => true | _ => false end.

(** The rows the reader yields from the lines, and the error that ended
    the iteration, if any. *)
Fixpoint read_rows (r : reader) (lines : list string)
  : list Row * option exn :=
  match lines with
  | [] =>
      match field r with
      | [] =>
          if in_quoted_field r
          then ([rev (fields (parse_save_field r START_RECORD))], None)
          else ([], None)
      | _ :: _ => ([rev (fields (parse_save_field r START_RECORD))], None)
      end
  | line :: rest =>
      match parse_line r line with
      | Raise e => ([], Some e)
      | Done r' =>
          if at_record_start r' then
            let (rows, e) := read_rows parse_reset rest in
            (rev (fields r') :: rows, e)
          else read_rows r' rest
      end
  end.

Definition csv_reader (s : string) : list Row * option exn :=
  read_rows parse_reset (file_lines s).

End Fmt.

Import Fmt.

(** ** The two programs on files

    The input of [compress_csv_and_save] is given as the rows that
    [csv.reader] yields from the input file, in both passes; the output
    is the text of the output file. *)

(** compress.py, lines 96-113.  The file that [json.dump] writes to is
    closed when the call returns, so what is appended afterwards follows
    the JSON text; line 105 writes a row without fields. *)
Definition compress_csv_and_save (table : Table) : string * option exn :=
  let conversion_map := get_conversion_map table in
  let (rows, e) := compress_rows conversion_map table in
  (json_dump conversion_map +:+ writerow [] +:+ writerows rows, e).

(** decompress.py, lines 26-42, on a file whose first line is the JSON text
    of a conversion map: the text of the output file and the exception that
    ended the loop, if any.  [None] when the first line is no such text
    (see [json_loads]). *)
Definition decompress_file_and_save (compressed : string)
  : option (string * option exn) :=
  let (line, rest) := readline compressed in
  match json_loads line with
  | None => None
  | Some conversion_map =>
      let (table, read_error) := csv_reader rest in
      let (rows, e) := decompress_rows conversion_map table in
      Some
        (writerows rows,
         match e with
         | Some _ => e
         | None => read_error
         end)
  end.

(** ** Vocabulary of the statements *)

(** The cells of column [i], in the order of the scan; a row that is too
    short has no cell there. *)
Definition column (i : nat) (table : Table) : list string :=
  flat_map
    (fun row =>
       match nth_error row i with
       | Some column_value => [column_value]
       | None => []
       end)
    table.

(** What the scan does to the counter of one column, cell by cell; [None]
    as long as the column has no entry in [columns_counter]. *)
Definition count_column_cell (column : option Counter) (column_value : string)
  : option Counter :=
  if (len column_value <=? 2)%nat then column
  else
    Some (count_value column_value
            match column with
            | Some d => d
            | None => []
            end).

Definition count_column (cells : list string) : option Counter :=
  fold_left count_column_cell cells None.

(** The number of occurrences of a value among cells. *)
Definition occurrences (v : string) (cells : list string) : nat :=
  count_occ string_dec cells v.

(** The position of the first occurrence, or the length when there is none. *)
Definition first_seen (v : string) (cells : list string) : nat :=
  match list_index v cells with
  | Some p => p
  | None => List.length cells
  end.

(** No cell too short to be substituted starts with the marker. *)
Definition marker_free (table : Table) : Prop :=
  forall row column_value,
    In row table -> In column_value row ->
    (len column_value <= 2)%nat -> startswith column_value "&" = false.

(** [table'] is [table] with other values in column [j] only. *)
Definition differ_in_column (j : nat) (table table' : Table) : Prop :=
  Forall2
    (fun row row' =>
       List.length row = List.length row' /\
       forall k, k <> j -> nth_error row k = nth_error row' k)
    table table'.

(** The ranking of two entries of a counter: a higher count first, and
    among equal counts the one first seen. *)
Definition ranks_before (cells : list string) (a b : string * nat) : Prop :=
  (snd b < snd a)%nat \/
  (snd a = snd b /\ (first_seen (fst a) cells < first_seen (fst b) cells)%nat).

(** Lines 84-86 on one entry of [columns_counter]. *)
Definition rank_entry (entry : nat * Counter) : nat * list string :=
  (fst entry, rank_column (snd entry)).

Definition counter_of (column : option Counter) : Counter :=
  match column with
  | Some d => d
  | None => []
  end.

(** What a counter holds once [cells] have been scanned: the values longer
    than two characters, each once, with its number of occurrences, in the
    order in which they were first seen. *)
Record counter_ok (cells : list string) (d : Counter) : Prop := {
  ok_nodup : NoDup (map fst d);
  ok_entries : forall v n,
    In (v, n) d <->
    (2 < len v)%nat /\ In v cells /\ n = occurrences v cells;
  ok_order :
    StronglySorted
      (fun u v => (first_seen u cells < first_seen v cells)%nat)
      (map fst d)
}.

(** The loop over [enumerate(row)] that both programs run, with the work
    on one cell as a parameter. *)
Fixpoint cells_from (f : nat -> string -> result string) (index : nat)
  (row : Row) : result Row :=
  match row with
  | [] => Done []
  | column_value :: rest =>
      cell <- f index column_value ;;
      rest' <- cells_from f (S index) rest ;;
      Done (cell :: rest')
  end.

(** Tables of the examples. *)
Definition fruit_column : list string :=
  ["apple"; "banana"; "apple"; "cherry"; "apple"; "banana"].

Definition fruit_table : Table := map (fun v => [v]) fruit_column.

Definition greeting_column : list string :=
  [EmptyString; EmptyString; "hello world"; "hello world"; "hi"].

Definition greeting_table : Table := map (fun v => [v]) greeting_column.

Definition hello_table : Table := [["hello"; "x"]; ["hello"; "y"]].

(** A table with a short cell that looks like a coded reference. *)
Definition marker_table : Table := [["abc"]; ["&0"]].

(** [v] is the element of [l] at index [pos], where a negative index counts
    from the end. *)
Definition element_at (l : list string) (pos : Z) (v : string) : Prop :=
  ((0 <= pos)%Z /\ nth_error l (Z.to_nat pos) = Some v) \/
  ((pos < 0)%Z /\ (Z.to_nat (- pos) <= List.length l)%nat /\
   nth_error l (List.length l - Z.to_nat (- pos)) = Some v).

(** [c'] is what the decoder has to put in the place of the cell [c] of
    column [i]: for a cell made of the marker and a suffix, the element, at
    the index that the suffix parses to, of the sequence that the map holds
    under the column index; the cell itself when it does not start with the
    marker. *)
Definition substituted (lm : LoadedMap) (i : nat) (c c' : string) : Prop :=
  (forall suffix, c = String "&" suffix ->
     exists l pos,
       In (str i, l) lm /\ int suffix = Some pos /\ element_at l pos c') /\
  ((forall suffix, c <> String "&" suffix) -> c' = c).

(** The text has no carriage return and no line feed. *)
Fixpoint no_newline (s : string) : bool :=
  match s with
  | EmptyString => true
  | String c t => negb (is_newline c) && no_newline t
  end.

(** The tokens of the JSON text of a list and of a conversion map. *)
Definition more_items (l : list string) : list token :=
  flat_map (fun v => [SEP; STR v]) l.

Definition list_tokens (l : list string) : list token :=
  LBRACKET ::
  match l with
  | [] => []
  | v :: l' => STR v :: more_items l'
  end ++ [RBRACKET].

Definition entry_tokens (entry : nat * list string) : list token :=
  STR (str (fst entry)) :: COLON :: list_tokens (snd entry).

Definition more_entries (m : ConversionMap) : list token :=
  flat_map (fun entry => SEP :: entry_tokens entry) m.

Definition dump_tokens (m : ConversionMap) : list token :=
  LBRACE ::
  match m with
  | [] => []
  | entry :: m' => entry_tokens entry ++ more_entries m'
  end ++ [RBRACE].

Definition add_tokens (ts : list token) (r : option (list token))
  : option (list token) :=
  option_map (app ts) r.

(** Where the reader stands once the text of a field has been read: after
    the closing quote, inside a plain field, or at the start of an empty
    one. *)
Inductive field_read (f : string) (fs : list string) : reader -> Prop :=
| read_quoted :
    field_read f fs
      (mkReader QUOTE_IN_QUOTED_FIELD (rev (list_ascii_of_string f)) fs)
| read_plain :
    field_read f fs (mkReader IN_FIELD (rev (list_ascii_of_string f)) fs)
| read_empty :
    f = EmptyString -> field_read f fs (mkReader START_FIELD [] fs).

(** Every cell of the table that is longer than two characters is in the
    sequence that the map has for its column. *)
Definition covers (m : ConversionMap) (table : Table) : Prop :=
  forall row i v,
    In row table -> nth_error row i = Some v -> (2 < len v)%nat ->
    In v (column_list m i).

(** The cells that the scan counts. *)
Definition long_cells (cells : list string) : list string :=
  filter (fun c => negb (len c <=? 2)%nat) cells.

(** ** Dictionaries *)

Section DictFacts.
Context {K V : Type} (eqb : K -> K -> bool).
Hypothesis eqb_spec : forall a b, reflect (a = b) (eqb a b).

Lemma dict_get_set_same (k : K) (v : V) (d : list (K * V)) :
  dict_get eqb k (dict_set eqb k v d) = Some v.
Proof.
  induction d as [|[k' v'] d IH]; simpl.
  - destruct (eqb_spec k k); congruence.
  - destruct (eqb_spec k k') as [->|Hne]; simpl.
    + destruct (eqb_spec k' k'); congruence.
    + destruct (eqb_spec k k'); congruence.
Qed.

Lemma dict_get_set_other (j k : K) (v : V) (d : list (K * V)) :
  j <> k -> dict_get eqb j (dict_set eqb k v d) = dict_get eqb j d.
Proof.
  intros Hjk. induction d as [|[k' v'] d IH]; simpl.
  - destruct (eqb_spec j k); congruence.
  - destruct (eqb_spec k k') as [->|Hne]; simpl.
    + destruct (eqb_spec j k'); congruence.
    + destruct (eqb_spec j k'); congruence.
Qed.

Lemma dict_get_none (k : K) (d : list (K * V)) :
  dict_get eqb k d = None <-> ~ In k (map fst d).
Proof.
  induction d as [|[k' v'] d IH]; simpl.
  - tauto.
  - destruct (eqb_spec k k') as [->|Hne].
    + split; [discriminate | intros H; exfalso; apply H; now left].
    + rewrite IH. split; [intros H [E|I]; [congruence|tauto] | tauto].
Qed.

Lemma dict_get_in (k : K) (v : V) (d : list (K * V)) :
  dict_get eqb k d = Some v -> In (k, v) d.
Proof.
  induction d as [|[k' v'] d IH]; simpl; [discriminate|].
  destruct (eqb_spec k k') as [->|Hne].
  - intros [= ->]. now left.
  - intros H. right. auto.
Qed.

Lemma in_dict_get (k : K) (v : V) (d : list (K * V)) :
  NoDup (map fst d) -> In (k, v) d -> dict_get eqb k d = Some v.
Proof.
  induction d as [|[k' v'] d IH]; simpl; [tauto|].
  intros Hnd [E|I].
  - injection E as -> ->. destruct (eqb_spec k k); congruence.
  - inversion Hnd as [|? ? Hni Hnd']; subst.
    destruct (eqb_spec k k') as [->|Hne].
    + exfalso. apply Hni. now apply (in_map fst) in I.
    + auto.
Qed.

Lemma dict_set_new (k : K) (v : V) (d : list (K * V)) :
  dict_get eqb k d = None -> dict_set eqb k v d = d ++ [(k, v)].
Proof.
  induction d as [|[k' v'] d IH]; simpl; [reflexivity|].
  destruct (eqb_spec k k'); [discriminate|].
  intros H. now rewrite IH.
Qed.

Lemma dict_set_keys (k : K) (v w : V) (d : list (K * V)) :
  dict_get eqb k d = Some w -> map fst (dict_set eqb k v d) = map fst d.
Proof.
  induction d as [|[k' v'] d IH]; simpl; [discriminate|].
  destruct (eqb_spec k k'); simpl; [reflexivity|].
  intros H. now rewrite IH.
Qed.

Lemma in_dict_set (k : K) (v : V) (d : list (K * V)) (k' : K) (v' : V) :
  NoDup (map fst d) ->
  In (k', v') (dict_set eqb k v d) <->
  (k' = k /\ v' = v) \/ (k' <> k /\ In (k', v') d).
Proof.
  induction d as [|[k0 v0] d IH]; simpl.
  - intros _. split.
    + intros [E|[]]. injection E as <- <-. now left.
    + intros [[-> ->]|[_ []]]. now left.
  - intros Hnd. inversion Hnd as [|? ? Hni Hnd']; subst.
    destruct (eqb_spec k k0) as [->|Hne]; simpl.
    + split.
      * intros [E|I]; [injection E as <- <-; now left|].
        right. split; [|now right].
        intros ->. apply Hni. now apply (in_map fst) in I.
      * intros [[-> ->]|[Hk [E|I]]]; [now left| |now right].
        injection E as <- <-. congruence.
    + rewrite (IH Hnd'). split.
      * intros [E|[[-> ->]|[Hk I]]].
        -- injection E as <- <-. right. split; [congruence|now left].
        -- now left.
        -- right. split; [assumption|now right].
      * intros [[-> ->]|[Hk [E|I]]].
        -- right. now left.
        -- now left.
        -- right. right. now split.
Qed.

Lemma dict_set_nodup (k : K) (v : V) (d : list (K * V)) :
  NoDup (map fst d) -> NoDup (map fst (dict_set eqb k v d)).
Proof.
  intros Hnd. destruct (dict_get eqb k d) as [w|] eqn:E.
  - now rewrite (dict_set_keys k v w d E).
  - rewrite (dict_set_new k v d E), map_app. simpl.
    apply Permutation_NoDup with (l := k :: map fst d).
    + apply Permutation_cons_append.
    + constructor; [now apply dict_get_none|assumption].
Qed.
End DictFacts.

Lemma nat_eqb_spec (a b : nat) : reflect (a = b) (Nat.eqb a b).
Proof. apply Nat.eqb_spec. Qed.

Lemma string_eqb_spec (a b : string) : reflect (a = b) (String.eqb a b).
Proof. apply String.eqb_spec. Qed.

(** ** The scan, column by column *)

Lemma count_cell_get_other (cc : ColumnsCounter) (i j : nat) (c : string) :
  j <> i -> dict_get Nat.eqb j (count_cell cc i c) = dict_get Nat.eqb j cc.
Proof.
  intros Hji. unfold count_cell.
  destruct (len c <=? 2)%nat; [reflexivity|].
  now apply (dict_get_set_other Nat.eqb nat_eqb_spec).
Qed.

Lemma count_cell_get_same (cc : ColumnsCounter) (i : nat) (c : string) :
  dict_get Nat.eqb i (count_cell cc i c)
  = count_column_cell (dict_get Nat.eqb i cc) c.
Proof.
  unfold count_cell, count_column_cell.
  destruct (len c <=? 2)%nat; [reflexivity|].
  now rewrite (dict_get_set_same Nat.eqb nat_eqb_spec).
Qed.

Lemma count_row_get (row : Row) :
  forall (cc : ColumnsCounter) (k i : nat),
    dict_get Nat.eqb i (count_row cc k row)
    = match (if (k <=? i)%nat then nth_error row (i - k) else None) with
      | Some c => count_column_cell (dict_get Nat.eqb i cc) c
      | None => dict_get Nat.eqb i cc
      end.
Proof.
  induction row as [|c rest IH]; intros cc k i; simpl.
  - destruct (k <=? i)%nat; [destruct (i - k)%nat|]; reflexivity.
  - rewrite IH. destruct (Nat.leb_spec k i) as [Hle|Hlt].
    + destruct (Nat.eq_dec i k) as [->|Hne].
      * replace (S k <=? k)%nat with false
          by (symmetry; apply Nat.leb_gt; lia).
        rewrite Nat.sub_diag. simpl. apply count_cell_get_same.
      * replace (S k <=? i)%nat with true
          by (symmetry; apply Nat.leb_le; lia).
        replace (i - k)%nat with (S (i - S k)) by lia. simpl.
        now rewrite count_cell_get_other.
    + replace (S k <=? i)%nat with false
        by (symmetry; apply Nat.leb_gt; lia).
      apply count_cell_get_other. lia.
Qed.

Lemma count_rows_get (table : Table) :
  forall (cc : ColumnsCounter) (i : nat),
    dict_get Nat.eqb i
      (fold_left (fun cc row => count_row cc 0 row) table cc)
    = fold_left count_column_cell (column i table) (dict_get Nat.eqb i cc).
Proof.
  induction table as [|row rest IH]; intros cc i; simpl; [reflexivity|].
  rewrite IH, count_row_get. simpl. rewrite Nat.sub_0_r.
  unfold column at 1. simpl. fold (column i rest).
  rewrite fold_left_app.
  destruct (nth_error row i); reflexivity.
Qed.

Lemma count_table_get (table : Table) (i : nat) :
  dict_get Nat.eqb i (count_table table) = count_column (column i table).
Proof. unfold count_table. now rewrite count_rows_get. Qed.

Lemma count_cell_nodup (cc : ColumnsCounter) (i : nat) (c : string) :
  NoDup (map fst cc) -> NoDup (map fst (count_cell cc i c)).
Proof.
  intros H. unfold count_cell. destruct (len c <=? 2)%nat; [assumption|].
  now apply (dict_set_nodup Nat.eqb nat_eqb_spec).
Qed.

Lemma count_row_nodup (row : Row) :
  forall (cc : ColumnsCounter) (k : nat),
    NoDup (map fst cc) -> NoDup (map fst (count_row cc k row)).
Proof.
  induction row as [|c rest IH]; intros cc k H; simpl; [assumption|].
  apply IH. now apply count_cell_nodup.
Qed.

Lemma count_table_nodup (table : Table) :
  NoDup (map fst (count_table table)).
Proof.
  unfold count_table.
  assert (G : forall cc, NoDup (map fst cc) ->
            NoDup (map fst (fold_left (fun cc row => count_row cc 0 row)
                              table cc))).
  { induction table as [|row rest IH]; intros cc H; simpl; [assumption|].
    apply IH. now apply count_row_nodup. }
  apply G. constructor.
Qed.

Lemma sort_columns_from (cc : ColumnsCounter) :
  forall acc : ConversionMap,
    NoDup (map fst acc ++ map fst cc) ->
    fold_left
      (fun columns_sorted entry =>
         dict_set Nat.eqb (fst entry) (rank_column (snd entry)) columns_sorted)
      cc acc
    = acc ++ map rank_entry cc.
Proof.
  induction cc as [|e cc IH]; intros acc H; simpl.
  - now rewrite app_nil_r.
  - simpl in H. pose proof (NoDup_remove_2 _ _ _ H) as Hni.
    rewrite (dict_set_new Nat.eqb nat_eqb_spec).
    + rewrite IH.
      * now rewrite <- app_assoc.
      * rewrite map_app, <- app_assoc. exact H.
    + apply (dict_get_none Nat.eqb nat_eqb_spec).
      intros I. apply Hni. apply in_or_app. now left.
Qed.

Lemma sort_columns_map (cc : ColumnsCounter) :
  NoDup (map fst cc) -> sort_columns cc = map rank_entry cc.
Proof. intros H. unfold sort_columns. now rewrite sort_columns_from. Qed.

Lemma rank_entries_get (cc : ColumnsCounter) (i : nat) :
  dict_get Nat.eqb i (map rank_entry cc)
  = option_map rank_column (dict_get Nat.eqb i cc).
Proof.
  induction cc as [|[k d] cc IH]; simpl; [reflexivity|].
  destruct (Nat.eqb i k); [reflexivity|exact IH].
Qed.

(** The entry of a column in the conversion map depends on the cells of
    that column only. *)
Lemma conversion_map_get (table : Table) (i : nat) :
  dict_get Nat.eqb i (get_conversion_map table)
  = option_map rank_column (count_column (column i table)).
Proof.
  unfold get_conversion_map.
  rewrite (sort_columns_map _ (count_table_nodup table)).
  now rewrite rank_entries_get, count_table_get.
Qed.

(** ** [list.index] *)

Lemma list_index_some (v : string) (l : list string) (p : nat) :
  list_index v l = Some p -> nth_error l p = Some v /\ (p < List.length l)%nat.
Proof.
  revert p. induction l as [|x l IH]; intros p; simpl; [discriminate|].
  destruct (String.eqb_spec x v) as [->|Hne].
  - intros [= <-]. simpl. split; [reflexivity|lia].
  - destruct (list_index v l) as [q|]; simpl; [|discriminate].
    intros [= <-]. destruct (IH q eq_refl). simpl. split; [assumption|lia].
Qed.

Lemma list_index_none (v : string) (l : list string) :
  list_index v l = None <-> ~ In v l.
Proof.
  induction l as [|x l IH]; simpl; [tauto|].
  destruct (String.eqb_spec x v) as [->|Hne].
  - split; [discriminate|]. intros H. exfalso. apply H. now left.
  - destruct (list_index v l) as [q|]; simpl.
    + split; [discriminate|]. intros H.
      assert (E : Some q = None) by (apply IH; intros I; apply H; now right).
      discriminate.
    + split; [|reflexivity]. intros _ [E|I]; [congruence|].
      now apply IH.
Qed.

Lemma list_index_in (v : string) (l : list string) :
  In v l -> exists p, list_index v l = Some p.
Proof.
  intros I. destruct (list_index v l) as [p|] eqn:E; [now exists p|].
  exfalso. now apply (list_index_none v l).
Qed.

Lemma list_index_app_l (v : string) (l l' : list string) (p : nat) :
  list_index v l = Some p -> list_index v (l ++ l') = Some p.
Proof.
  revert p. induction l as [|x l IH]; intros p; simpl; [discriminate|].
  destruct (String.eqb x v); [trivial|].
  destruct (list_index v l) as [q|]; simpl; [|discriminate].
  intros [= <-]. now rewrite (IH q eq_refl).
Qed.

Lemma list_index_app_new (v : string) (l : list string) :
  ~ In v l -> list_index v (l ++ [v]) = Some (List.length l).
Proof.
  induction l as [|x l IH]; simpl; intros H.
  - now rewrite String.eqb_refl.
  - destruct (String.eqb_spec x v) as [->|Hne]; [exfalso; apply H; now left|].
    rewrite IH; [reflexivity|]. intros I. apply H. now right.
Qed.

Lemma first_seen_in (v : string) (l : list string) :
  In v l -> (first_seen v l < List.length l)%nat.
Proof.
  intros I. unfold first_seen. destruct (list_index_in v l I) as [p E].
  rewrite E. now apply list_index_some in E.
Qed.

Lemma first_seen_app_l (v : string) (l l' : list string) :
  In v l -> first_seen v (l ++ l') = first_seen v l.
Proof.
  intros I. unfold first_seen. destruct (list_index_in v l I) as [p E].
  now rewrite (list_index_app_l v l l' p E), E.
Qed.

Lemma first_seen_app_new (v : string) (l : list string) :
  ~ In v l -> first_seen v (l ++ [v]) = List.length l.
Proof. intros H. unfold first_seen. now rewrite list_index_app_new. Qed.

(** ** The counter of one column *)

Lemma occurrences_snoc_same (c : string) (cells : list string) :
  occurrences c (cells ++ [c]) = (occurrences c cells + 1)%nat.
Proof.
  unfold occurrences. rewrite count_occ_app. simpl.
  destruct (string_dec c c); [reflexivity|congruence].
Qed.

Lemma occurrences_snoc_other (v c : string) (cells : list string) :
  v <> c -> occurrences v (cells ++ [c]) = occurrences v cells.
Proof.
  intros H. unfold occurrences. rewrite count_occ_app. simpl.
  destruct (string_dec c v); [congruence|lia].
Qed.

Lemma in_snoc_other (v c : string) (cells : list string) :
  v <> c -> (In v (cells ++ [c]) <-> In v cells).
Proof.
  intros H. rewrite in_app_iff. simpl. intuition congruence.
Qed.

Lemma StronglySorted_impl_in {A : Type} (R R' : A -> A -> Prop) (l : list A) :
  (forall a b, In a l -> In b l -> R a b -> R' a b) ->
  StronglySorted R l -> StronglySorted R' l.
Proof.
  induction l as [|x l IH]; intros Himp Hs; [constructor|].
  apply StronglySorted_inv in Hs as [Hs Hall]. constructor.
  - apply IH; [|assumption]. intros a b Ia Ib. apply Himp; now right.
  - rewrite Forall_forall in *. intros b Ib.
    apply Himp; [now left|now right|auto].
Qed.

Lemma StronglySorted_snoc {A : Type} (R : A -> A -> Prop) (l : list A) (x : A) :
  StronglySorted R l -> Forall (fun a => R a x) l ->
  StronglySorted R (l ++ [x]).
Proof.
  induction l as [|y l IH]; intros Hs Hall; simpl.
  - repeat constructor.
  - apply StronglySorted_inv in Hs as [Hs Hy].
    inversion Hall as [|? ? Hyx Hall']; subst. constructor.
    + now apply IH.
    + apply Forall_app. split; [assumption|]. now constructor.
Qed.

Lemma counter_ok_keys (cells : list string) (d : Counter) (v : string) :
  counter_ok cells d ->
  (In v (map fst d) <-> (2 < len v)%nat /\ In v cells).
Proof.
  intros Hok. rewrite in_map_iff. split.
  - intros [[v' n] [E I]]. simpl in E. subst v'.
    apply (ok_entries _ _ Hok) in I. tauto.
  - intros [Hlen I]. exists (v, occurrences v cells). split; [reflexivity|].
    apply (ok_entries _ _ Hok). tauto.
Qed.

Lemma counter_ok_skip (cells : list string) (d : Counter) (c : string) :
  (len c <= 2)%nat -> counter_ok cells d -> counter_ok (cells ++ [c]) d.
Proof.
  intros Hc Hok. constructor.
  - apply (ok_nodup _ _ Hok).
  - intros v n. rewrite (ok_entries _ _ Hok). split.
    + intros (Hv & I & ->). assert (v <> c) by (intros ->; lia).
      rewrite in_snoc_other, occurrences_snoc_other by assumption. tauto.
    + intros (Hv & I & ->). assert (v <> c) by (intros ->; lia).
      rewrite in_snoc_other in I by assumption.
      rewrite occurrences_snoc_other by assumption. tauto.
  - apply StronglySorted_impl_in with (2 := ok_order _ _ Hok).
    intros a b Ia Ib. apply (counter_ok_keys _ _ _ Hok) in Ia, Ib.
    rewrite !first_seen_app_l by tauto. trivial.
Qed.

Lemma counter_ok_count (cells : list string) (d : Counter) (c : string) :
  (2 < len c)%nat -> counter_ok cells d ->
  counter_ok (cells ++ [c]) (count_value c d).
Proof.
  intros Hc Hok.
  assert (Hset : count_value c d
                 = dict_set String.eqb c (occurrences c cells + 1)%nat d
                 /\ (dict_get String.eqb c d = None -> ~ In c cells)).
  { unfold count_value. destruct (dict_get String.eqb c d) as [n|] eqn:E.
    - apply (dict_get_in String.eqb string_eqb_spec) in E.
      apply (ok_entries _ _ Hok) in E as (_ & _ & ->).
      split; [reflexivity|discriminate].
    - apply (dict_get_none String.eqb string_eqb_spec) in E.
      assert (Hni : ~ In c cells).
      { intros I. apply E. apply (counter_ok_keys _ _ _ Hok). tauto. }
      split; [|trivial]. unfold occurrences.
      now rewrite (proj1 (count_occ_not_In string_dec cells c) Hni). }
  destruct Hset as [-> Hnew]. constructor.
  - apply (dict_set_nodup String.eqb string_eqb_spec), (ok_nodup _ _ Hok).
  - intros v n.
    rewrite (in_dict_set String.eqb string_eqb_spec) by apply (ok_nodup _ _ Hok).
    rewrite (ok_entries _ _ Hok). split.
    + intros [[-> ->]|(Hne & Hv & I & ->)].
      * rewrite occurrences_snoc_same, in_app_iff. simpl. tauto.
      * rewrite in_snoc_other, occurrences_snoc_other by assumption. tauto.
    + intros (Hv & I & ->). destruct (string_dec v c) as [->|Hne].
      * left. now rewrite occurrences_snoc_same.
      * right. rewrite in_snoc_other in I by assumption.
        rewrite occurrences_snoc_other by assumption. tauto.
  - destruct (dict_get String.eqb c d) as [n|] eqn:E.
    + rewrite (dict_set_keys String.eqb string_eqb_spec c _ n d E).
      apply StronglySorted_impl_in with (2 := ok_order _ _ Hok).
      intros a b Ia Ib. apply (counter_ok_keys _ _ _ Hok) in Ia, Ib.
      rewrite !first_seen_app_l by tauto. trivial.
    + rewrite (dict_set_new String.eqb string_eqb_spec c _ d E), map_app.
      simpl. specialize (Hnew eq_refl). apply StronglySorted_snoc.
      * apply StronglySorted_impl_in with (2 := ok_order _ _ Hok).
        intros a b Ia Ib. apply (counter_ok_keys _ _ _ Hok) in Ia, Ib.
        rewrite !first_seen_app_l by tauto. trivial.
      * apply Forall_forall. intros a Ia.
        apply (counter_ok_keys _ _ _ Hok) in Ia.
        rewrite first_seen_app_l by tauto.
        rewrite first_seen_app_new by assumption.
        apply first_seen_in. tauto.
Qed.

Lemma counter_ok_nil : counter_ok [] [].
Proof.
  constructor; simpl.
  - constructor.
  - intros v n. tauto.
  - constructor.
Qed.

(** After the scan of [cells], the column has an entry exactly when a cell
    is longer than two characters, and its counter is as [counter_ok]
    says. *)
Lemma count_column_ok (cells : list string) :
  counter_ok cells (counter_of (count_column cells)) /\
  (count_column cells = None <-> forall c, In c cells -> (len c <= 2)%nat).
Proof.
  unfold count_column. induction cells as [|c cells IH] using rev_ind.
  - simpl. split; [apply counter_ok_nil|]. split; [intros _ c []|reflexivity].
  - rewrite fold_left_app. simpl. destruct IH as [Hok Hnone].
    unfold count_column_cell at 1 3.
    destruct (Nat.leb_spec (len c) 2) as [Hc|Hc].
    + split; [now apply counter_ok_skip|].
      rewrite Hnone. split.
      * intros H x I. apply in_app_iff in I as [I|[<-|[]]]; auto.
      * intros H x I. apply H. apply in_app_iff. now left.
    + simpl. split; [now apply counter_ok_count|].
      split; [discriminate|]. intros H. exfalso.
      specialize (H c). rewrite in_app_iff in H. simpl in H.
      assert (len c <= 2)%nat by tauto. lia.
Qed.

(** ** The ranking *)

Lemma insert_desc_perm (x : string * nat) (l : list (string * nat)) :
  Permutation (insert_desc x l) (x :: l).
Proof.
  induction l as [|y l IH]; simpl; [reflexivity|].
  destruct (snd x <? snd y)%nat; [|reflexivity].
  rewrite IH. apply perm_swap.
Qed.

Lemma sorted_desc_perm (l : list (string * nat)) :
  Permutation (sorted_desc l) l.
Proof.
  induction l as [|x l IH]; simpl; [reflexivity|].
  rewrite insert_desc_perm. now constructor.
Qed.

Lemma ranks_before_count (cells : list string) (a b : string * nat) :
  ranks_before cells a b -> (snd b <= snd a)%nat.
Proof. unfold ranks_before. lia. Qed.

Lemma insert_desc_sorted (cells : list string) (x : string * nat)
  (l : list (string * nat)) :
  StronglySorted (ranks_before cells) l ->
  Forall (fun y => (first_seen (fst x) cells < first_seen (fst y) cells)%nat) l ->
  StronglySorted (ranks_before cells) (insert_desc x l).
Proof.
  induction l as [|y l IH]; intros Hs Hx; simpl.
  - repeat constructor.
  - apply StronglySorted_inv in Hs as [Hs Hy].
    inversion Hx as [|? ? Hxy Hx']; subst.
    destruct (Nat.ltb_spec (snd x) (snd y)) as [Hlt|Hge].
    + constructor; [now apply IH|].
      apply Forall_forall. intros z Iz.
      apply (Permutation_in _ (insert_desc_perm x l)) in Iz as [<-|Iz].
      * now left.
      * rewrite Forall_forall in Hy. now apply Hy.
    + constructor; [now constructor|].
      assert (G : forall z, In z (y :: l) ->
                (snd z <= snd x)%nat /\
                (first_seen (fst x) cells < first_seen (fst z) cells)%nat).
      { rewrite Forall_forall in Hy, Hx'. intros z [<-|Iz]; [lia|].
        split; [|now apply Hx'].
        pose proof (ranks_before_count _ _ _ (Hy z Iz)). lia. }
      apply Forall_forall. intros z Iz. destruct (G z Iz) as [Hc Hp].
      unfold ranks_before. lia.
Qed.

Lemma sorted_desc_sorted (cells : list string) (d : list (string * nat)) :
  StronglySorted
    (fun u v => (first_seen u cells < first_seen v cells)%nat) (map fst d) ->
  StronglySorted (ranks_before cells) (sorted_desc d).
Proof.
  induction d as [|x d IH]; simpl; intros Hs; [constructor|].
  apply StronglySorted_inv in Hs as [Hs Hx].
  apply insert_desc_sorted; [now apply IH|].
  apply Forall_forall. intros y Iy.
  apply (Permutation_in _ (sorted_desc_perm d)) in Iy.
  rewrite Forall_forall in Hx. apply Hx. now apply in_map.
Qed.

Lemma StronglySorted_nth {A : Type} (R : A -> A -> Prop) (l : list A) :
  StronglySorted R l ->
  forall p q a b,
    (p < q)%nat -> nth_error l p = Some a -> nth_error l q = Some b -> R a b.
Proof.
  induction 1 as [|x l Hs IH Hx]; intros p q a b Hpq Hp Hq.
  - destruct p; discriminate.
  - destruct q as [|q]; [lia|]. simpl in Hq. destruct p as [|p]; simpl in Hp.
    + injection Hp as <-. rewrite Forall_forall in Hx.
      apply Hx. now apply nth_error_In in Hq.
    + apply (IH p q); [lia|assumption|assumption].
Qed.

Lemma filter_all {A : Type} (f : A -> bool) (l : list A) :
  (forall x, In x l -> f x = true) -> filter f l = l.
Proof.
  induction l as [|x l IH]; simpl; intros H; [reflexivity|].
  rewrite (H x) by now left. rewrite IH; [reflexivity|].
  intros y I. apply H. now right.
Qed.

(** On a counter of values longer than two characters, the filter of line
    86 keeps every value. *)
Lemma rank_column_sorted (cells : list string) (d : Counter) :
  counter_ok cells d -> rank_column d = map fst (sorted_desc d).
Proof.
  intros Hok. unfold rank_column. rewrite filter_all; [reflexivity|].
  intros [v n] I. apply (Permutation_in _ (sorted_desc_perm d)) in I.
  apply (ok_entries _ _ Hok) in I as (Hv & _). simpl.
  destruct (String.eqb_spec v EmptyString) as [->|]; [simpl in Hv; lia|reflexivity].
Qed.

Lemma rank_column_in (cells : list string) (d : Counter) (v : string) :
  counter_ok cells d ->
  (In v (rank_column d) <-> (2 < len v)%nat /\ In v cells).
Proof.
  intros Hok. rewrite (rank_column_sorted _ _ Hok).
  rewrite <- (counter_ok_keys _ _ _ Hok). split; apply Permutation_in.
  - apply Permutation_map, sorted_desc_perm.
  - apply Permutation_map, Permutation_sym, sorted_desc_perm.
Qed.

Lemma rank_column_nodup (cells : list string) (d : Counter) :
  counter_ok cells d -> NoDup (rank_column d).
Proof.
  intros Hok. rewrite (rank_column_sorted _ _ Hok).
  apply Permutation_NoDup with (l := map fst d).
  - apply Permutation_map, Permutation_sym, sorted_desc_perm.
  - apply (ok_nodup _ _ Hok).
Qed.

Lemma rank_column_order (cells : list string) (d : Counter) :
  counter_ok cells d ->
  forall p q u v,
    (p < q)%nat ->
    nth_error (rank_column d) p = Some u ->
    nth_error (rank_column d) q = Some v ->
    (occurrences v cells < occurrences u cells)%nat \/
    (occurrences u cells = occurrences v cells /\
     (first_seen u cells < first_seen v cells)%nat).
Proof.
  intros Hok p q u v Hpq Hp Hq. rewrite (rank_column_sorted _ _ Hok) in Hp, Hq.
  rewrite nth_error_map in Hp, Hq.
  destruct (nth_error (sorted_desc d) p) as [[u' n]|] eqn:Ep; [|discriminate].
  destruct (nth_error (sorted_desc d) q) as [[v' m]|] eqn:Eq; [|discriminate].
  simpl in Hp, Hq. injection Hp as ->. injection Hq as ->.
  pose proof (StronglySorted_nth _ _
                (sorted_desc_sorted cells d (ok_order _ _ Hok))
                p q _ _ Hpq Ep Eq) as Hr.
  apply nth_error_In, (Permutation_in _ (sorted_desc_perm d)) in Ep, Eq.
  apply (ok_entries _ _ Hok) in Ep as (_ & _ & ->).
  apply (ok_entries _ _ Hok) in Eq as (_ & _ & ->).
  exact Hr.
Qed.

(** The sequence of a column of the conversion map is the ranking of the
    counter that the scan of that column leaves. *)
Lemma conversion_map_entry (table : Table) (i : nat) (s : list string) :
  dict_get Nat.eqb i (get_conversion_map table) = Some s ->
  exists d, counter_ok (column i table) d /\ s = rank_column d.
Proof.
  rewrite conversion_map_get. intros H.
  destruct (count_column_ok (column i table)) as [Hok _].
  destruct (count_column (column i table)) as [d|]; [|discriminate].
  injection H as <-. now exists d.
Qed.

Lemma conversion_map_has (table : Table) (i : nat) (v : string) :
  In v (column i table) -> (2 < len v)%nat ->
  exists s, dict_get Nat.eqb i (get_conversion_map table) = Some s /\ In v s.
Proof.
  intros I Hv. rewrite conversion_map_get.
  destruct (count_column_ok (column i table)) as [Hok Hnone].
  destruct (count_column (column i table)) as [d|].
  - exists (rank_column d). split; [reflexivity|].
    apply (rank_column_in _ _ _ Hok). tauto.
  - exfalso. assert (len v <= 2)%nat by (apply Hnone; trivial). lia.
Qed.

(** ** [str] and [int] *)

Lemma int_digits_uint (u : Decimal.uint) :
  forall a : nat,
    int_digits (NilEmpty.string_of_uint u) (Z.of_nat a) false
    = Some (Z.of_nat (Nat.of_uint_acc u a)).
Proof.
  induction u; intros a;
    cbn [NilEmpty.string_of_uint int_digits Nat.of_uint_acc];
    [reflexivity|..];
    match goal with
    | |- context [digit_value ?c] =>
        let v := eval vm_compute in (digit_value c) in
        change (digit_value c) with v; cbv iota
    end;
    rewrite <- IHu; f_equal; rewrite Nat.tail_mul_spec; lia.
Qed.

Lemma int_uint (u : Decimal.uint) :
  u <> Decimal.Nil ->
  int (NilEmpty.string_of_uint u) = Some (Z.of_nat (Nat.of_uint u)).
Proof.
  intros Hu. unfold Nat.of_uint.
  destruct u; [congruence|..];
    cbn [NilEmpty.string_of_uint Nat.of_uint_acc];
    rewrite <- int_digits_uint; reflexivity.
Qed.

Lemma to_uint_not_nil (n : nat) : Nat.to_uint n <> Decimal.Nil.
Proof.
  intros E. pose proof (DecimalNat.Unsigned.of_to n) as H.
  rewrite E in H. simpl in H. subst n. discriminate.
Qed.

Lemma int_str (n : nat) : int (str n) = Some (Z.of_nat n).
Proof.
  unfold str. rewrite int_uint by apply to_uint_not_nil.
  now rewrite DecimalNat.Unsigned.of_to.
Qed.

Lemma str_inj (n m : nat) : str n = str m -> n = m.
Proof.
  intros E. apply (f_equal int) in E. rewrite !int_str in E.
  injection E. lia.
Qed.

(** ** The loops over cells and rows *)

Lemma compress_row_from_cells (m : ConversionMap) (row : Row) :
  forall k, compress_row_from m k row = cells_from (compress_cell m) k row.
Proof.
  induction row as [|v rest IH]; intros k; simpl; [reflexivity|].
  now rewrite IH.
Qed.

Lemma decompress_row_from_cells (m : LoadedMap) (row : Row) :
  forall k, decompress_row_from m k row = cells_from (decompress_cell m) k row.
Proof.
  induction row as [|v rest IH]; intros k; simpl; [reflexivity|].
  now rewrite IH.
Qed.

Section Cells.
Variables f g : nat -> string -> result string.

Lemma cells_from_done (row : Row) :
  forall k row',
    cells_from f k row = Done row' ->
    List.length row' = List.length row /\
    forall j v, nth_error row j = Some v ->
      exists c, f (k + j)%nat v = Done c /\ nth_error row' j = Some c.
Proof.
  induction row as [|x rest IH]; intros k row'; simpl.
  - intros [= <-]. split; [reflexivity|]. intros [|j] v; discriminate.
  - destruct (f k x) as [c|e] eqn:Ef; simpl; [|discriminate].
    destruct (cells_from f (S k) rest) as [rest'|e] eqn:Er; simpl;
      [|discriminate].
    intros [= <-]. destruct (IH _ _ Er) as [Hlen Hcells].
    split; [simpl; now rewrite Hlen|].
    intros [|j] v; simpl.
    + intros [= <-]. exists c. now rewrite Nat.add_0_r.
    + intros Hj. destruct (Hcells j v Hj) as [c' [Hc' Hn]].
      exists c'. split; [|assumption].
      now replace (k + S j)%nat with (S k + j)%nat by lia.
Qed.

Lemma cells_from_total (row : Row) :
  forall k,
    (forall j v, nth_error row j = Some v ->
                 exists c, f (k + j)%nat v = Done c) ->
    exists row', cells_from f k row = Done row'.
Proof.
  induction row as [|x rest IH]; intros k H; simpl.
  - now exists [].
  - destruct (H 0%nat x eq_refl) as [c Hc]. rewrite Nat.add_0_r in Hc.
    rewrite Hc. simpl.
    destruct (IH (S k)) as [rest' Hr].
    + intros j v Hj. destruct (H (S j) v Hj) as [c' Hc'].
      exists c'. now replace (S k + j)%nat with (k + S j)%nat by lia.
    + rewrite Hr. simpl. now exists (c :: rest').
Qed.

Lemma cells_from_raise (row : Row) :
  forall k j v e,
    nth_error row j = Some v -> f (k + j)%nat v = Raise e ->
    exists e', cells_from f k row = Raise e'.
Proof.
  induction row as [|x rest IH]; intros k j v e Hj He.
  - destruct j; discriminate.
  - simpl. destruct j as [|j]; simpl in Hj.
    + injection Hj as ->. rewrite Nat.add_0_r in He. rewrite He.
      now exists e.
    + destruct (f k x) as [c|e0]; simpl; [|now exists e0].
      replace (k + S j)%nat with (S k + j)%nat in He by lia.
      destruct (IH _ _ _ _ Hj He) as [e' ->]. now exists e'.
Qed.

Lemma cells_from_inverse (row : Row) :
  forall k row',
    (forall j v c, nth_error row j = Some v ->
                   f (k + j)%nat v = Done c -> g (k + j)%nat c = Done v) ->
    cells_from f k row = Done row' ->
    cells_from g k row' = Done row.
Proof.
  induction row as [|x rest IH]; intros k row' H; simpl.
  - now intros [= <-].
  - destruct (f k x) as [c|e] eqn:Ef; simpl; [|discriminate].
    destruct (cells_from f (S k) rest) as [rest'|e] eqn:Er; simpl;
      [|discriminate].
    intros [= <-]. simpl.
    pose proof (H 0%nat x c eq_refl) as H0. rewrite Nat.add_0_r in H0.
    rewrite (H0 Ef). simpl.
    rewrite (IH (S k) rest'); [reflexivity| |assumption].
    intros j v c' Hj. replace (S k + j)%nat with (k + S j)%nat by lia.
    now apply (H (S j)).
Qed.
End Cells.

Section Rows.
Variables g h : Row -> result Row.

Lemma write_rows_done (table : Table) :
  forall written,
    write_rows g table = (written, None) <->
    Forall2 (fun row row' => g row = Done row') table written.
Proof.
  induction table as [|row rest IH]; intros written; simpl.
  - split.
    + intros [= <-]. constructor.
    + intros H. now inversion H.
  - destruct (g row) as [row'|e] eqn:Eg.
    + destruct (write_rows g rest) as [w e] eqn:Ew. split.
      * intros [= <- ->]. constructor; [assumption|]. now apply IH.
      * intros H. inversion H as [|? r' ? w' Hr Hw]; subst.
        apply IH in Hw. congruence.
    + split; [discriminate|].
      intros H. inversion H; subst. congruence.
Qed.

Lemma write_rows_total (table : Table) :
  (forall row, In row table -> exists row', g row = Done row') ->
  exists written, write_rows g table = (written, None).
Proof.
  induction table as [|row rest IH]; intros H; simpl.
  - now exists [].
  - destruct (H row) as [row' ->]; [now left|].
    destruct IH as [w ->]; [intros r I; apply H; now right|].
    now exists (row' :: w).
Qed.

Lemma write_rows_inverse (table : Table) :
  forall written,
    (forall row row', In row table -> g row = Done row' -> h row' = Done row) ->
    write_rows g table = (written, None) ->
    write_rows h written = (table, None).
Proof.
  induction table as [|row rest IH]; intros written H; simpl.
  - now intros [= <-].
  - destruct (g row) as [row'|e] eqn:Eg; [|discriminate].
    destruct (write_rows g rest) as [w e] eqn:Ew.
    intros [= <- ->]. simpl.
    rewrite (H row row') by (trivial; now left).
    rewrite (IH w); [reflexivity| |reflexivity].
    intros r r' I. apply H. now right.
Qed.

(** The rows before the one that raises are written, that row and the
    following ones are not. *)
Lemma write_rows_raise (before : Table) :
  forall written row after e,
    Forall2 (fun row row' => g row = Done row') before written ->
    g row = Raise e ->
    write_rows g (before ++ row :: after) = (written, Some e).
Proof.
  induction before as [|r before IH]; intros written row after e Hb He;
    inversion Hb as [|? r' ? w' Hr Hw]; subst; simpl.
  - now rewrite He.
  - rewrite Hr. now rewrite (IH w' row after e Hw He).
Qed.
End Rows.

Lemma cells_from_spec (f : nat -> string -> result string) (row : Row) :
  forall k row',
    cells_from f k row = Done row' <->
    List.length row' = List.length row /\
    forall j v, nth_error row j = Some v ->
      exists c, f (k + j)%nat v = Done c /\ nth_error row' j = Some c.
Proof.
  intros k row'. split; [apply cells_from_done|].
  revert k row'. induction row as [|x rest IH]; intros k row' [Hlen H].
  - destruct row'; [reflexivity|discriminate].
  - destruct row' as [|c row']; [discriminate|]. simpl.
    destruct (H 0%nat x eq_refl) as [c0 [Hc0 Hn]].
    rewrite Nat.add_0_r in Hc0. simpl in Hn. injection Hn as ->.
    rewrite Hc0. simpl. rewrite (IH (S k) row'); [reflexivity|].
    split; [simpl in Hlen; lia|].
    intros j v Hj. destruct (H (S j) v Hj) as [c' [Hc' Hn']].
    exists c'. split; [|exact Hn'].
    now replace (S k + j)%nat with (k + S j)%nat by lia.
Qed.

(** ** One cell, there and back *)

Lemma loaded_get (m : ConversionMap) (i : nat) :
  dict_get String.eqb (str i) (loaded m) = dict_get Nat.eqb i m.
Proof.
  induction m as [|[k l] m IH]; simpl; [reflexivity|].
  destruct (Nat.eqb_spec i k) as [->|Hne].
  - now rewrite String.eqb_refl.
  - destruct (String.eqb_spec (str i) (str k)) as [E|_]; [|exact IH].
    now apply str_inj in E.
Qed.

Lemma getitem_nat {A : Type} (l : list A) (p : nat) :
  getitem l (Z.of_nat p) = nth_error l p.
Proof.
  unfold getitem. destruct (Z.leb_spec 0 (Z.of_nat p)); [|lia].
  now rewrite Nat2Z.id.
Qed.

Lemma getitem_negative {A : Type} (l : list A) (k : nat) :
  (1 <= k <= List.length l)%nat ->
  getitem l (- Z.of_nat k) = nth_error l (List.length l - k).
Proof.
  intros Hk. unfold getitem.
  destruct (Z.leb_spec 0 (- Z.of_nat k)); [lia|].
  destruct (Z.leb_spec (- Z.of_nat (List.length l)) (- Z.of_nat k)); [|lia].
  f_equal. lia.
Qed.

Lemma getitem_out_of_range {A : Type} (l : list A) (pos : Z) :
  (pos < - Z.of_nat (List.length l) \/ Z.of_nat (List.length l) <= pos)%Z ->
  getitem l pos = None.
Proof.
  intros H. unfold getitem. destruct (Z.leb_spec 0 pos).
  - apply nth_error_None. lia.
  - destruct (Z.leb_spec (- Z.of_nat (List.length l)) pos); [lia|reflexivity].
Qed.

Lemma startswith_marker (s : string) : startswith ("&" +:+ s) "&" = true.
Proof. destruct s; reflexivity. Qed.

Lemma compress_cell_short (m : ConversionMap) (i : nat) (v : string) :
  (len v <= 2)%nat -> compress_cell m i v = Done v.
Proof.
  intros H. unfold compress_cell.
  now destruct (Nat.leb_spec (len v) 2); [|lia].
Qed.

Lemma compress_cell_long (m : ConversionMap) (i : nat) (v c : string) :
  (2 < len v)%nat -> compress_cell m i v = Done c ->
  exists l pos,
    dict_get Nat.eqb i m = Some l /\ list_index v l = Some pos /\
    c = "&" +:+ str pos.
Proof.
  intros H. unfold compress_cell, column_list.
  destruct (Nat.leb_spec (len v) 2); [lia|].
  destruct (dict_get Nat.eqb i m) as [l|]; [|discriminate].
  destruct (list_index v l) as [pos|] eqn:E; [|discriminate].
  intros [= <-]. now exists l, pos.
Qed.

Lemma decompress_cell_literal (lm : LoadedMap) (i : nat) (c : string) :
  startswith c "&" = false -> decompress_cell lm i c = Done c.
Proof. intros H. unfold decompress_cell. now rewrite H. Qed.

Lemma cell_round_trip (m : ConversionMap) (i : nat) (v c : string) :
  ((len v <= 2)%nat -> startswith v "&" = false) ->
  compress_cell m i v = Done c ->
  decompress_cell (loaded m) i c = Done v.
Proof.
  intros Hfree Hc. destruct (Nat.leb_spec (len v) 2) as [Hv|Hv].
  - rewrite compress_cell_short in Hc by assumption. injection Hc as <-.
    apply decompress_cell_literal. auto.
  - destruct (compress_cell_long _ _ _ _ Hv Hc) as (l & pos & Hl & Hp & ->).
    unfold decompress_cell. rewrite startswith_marker, loaded_get, Hl.
    simpl tail. rewrite int_str, getitem_nat.
    apply list_index_some in Hp as [-> _]. reflexivity.
Qed.

(** The coded reference of the specification: banana is at index 1. *)
Example coded_reference_banana :
  compress_cell [(0, ["apple"; "banana"; "cherry"])] 0 "banana" = Done "&1" /\
  decompress_cell [("0", ["apple"; "banana"; "cherry"])] 0 "&1"
  = Done "banana".
Proof. split; reflexivity. Qed.

Lemma in_column (table : Table) (row : Row) (i : nat) (v : string) :
  In row table -> nth_error row i = Some v -> In v (column i table).
Proof.
  intros Ir Hv. unfold column. apply in_flat_map. exists row.
  split; [assumption|]. rewrite Hv. now left.
Qed.

(** With the map built from the table, the lookup of line 111 finds every
    cell it is asked for. *)
Lemma compress_cell_built (table : Table) (row : Row) (i : nat) (v : string) :
  In row table -> nth_error row i = Some v ->
  (2 < len v)%nat ->
  exists pos,
    list_index v (column_list (get_conversion_map table) i) = Some pos /\
    compress_cell (get_conversion_map table) i v = Done ("&" +:+ str pos).
Proof.
  intros Ir Hv Hlen.
  destruct (conversion_map_has table i v (in_column _ _ _ _ Ir Hv) Hlen)
    as (s & Hs & Is).
  destruct (list_index_in v s Is) as [pos Hpos]. exists pos.
  unfold compress_cell, column_list. rewrite Hs, Hpos.
  split; [reflexivity|]. now destruct (Nat.leb_spec (len v) 2); [lia|].
Qed.

Lemma compress_row_built (table : Table) (row : Row) :
  In row table ->
  exists row', compress_row (get_conversion_map table) row = Done row'.
Proof.
  intros Ir. unfold compress_row. rewrite compress_row_from_cells.
  apply cells_from_total. intros j v Hv. simpl.
  destruct (Nat.leb_spec (len v) 2) as [Hs|Hl].
  - exists v. now apply compress_cell_short.
  - destruct (compress_cell_built table row j v Ir Hv Hl) as (pos & _ & E).
    eauto.
Qed.

Lemma compress_rows_built (table : Table) :
  exists written,
    compress_rows (get_conversion_map table) table = (written, None).
Proof.
  unfold compress_rows.
  assert (G : forall rows, (forall row, In row rows -> In row table) ->
            exists written,
              write_rows (compress_row (get_conversion_map table)) rows
              = (written, None)).
  { intros rows H. apply write_rows_total. intros row I.
    apply compress_row_built. auto. }
  apply G. auto.
Qed.

Lemma row_round_trip (m : ConversionMap) (row row' : Row) :
  (forall v, In v row -> (len v <= 2)%nat -> startswith v "&" = false) ->
  compress_row m row = Done row' ->
  decompress_row (loaded m) row' = Done row.
Proof.
  unfold compress_row, decompress_row.
  rewrite compress_row_from_cells, decompress_row_from_cells.
  intros Hfree. apply cells_from_inverse. intros j v c Hv.
  apply cell_round_trip. intros Hlen. apply Hfree; [|assumption].
  now apply nth_error_In in Hv.
Qed.

Lemma rows_round_trip (m : ConversionMap) (table written : Table) :
  marker_free table ->
  compress_rows m table = (written, None) ->
  decompress_rows (loaded m) written = (table, None).
Proof.
  intros Hfree. unfold compress_rows, decompress_rows.
  apply write_rows_inverse. intros row row' Ir.
  apply row_round_trip. intros v Iv. now apply (Hfree row).
Qed.

(** ** Columns that do not change *)

Lemma differ_in_column_other (i j : nat) (table table' : Table) :
  i <> j -> differ_in_column j table table' ->
  column i table = column i table'.
Proof.
  intros Hij H. induction H as [|row row' rest rest' [_ Hrow] _ IH];
    [reflexivity|].
  unfold column. simpl. fold (column i rest) (column i rest').
  now rewrite (Hrow i Hij), IH.
Qed.

Lemma compress_cell_same_entry (m m' : ConversionMap) (i : nat) (v : string) :
  dict_get Nat.eqb i m = dict_get Nat.eqb i m' ->
  compress_cell m i v = compress_cell m' i v.
Proof. intros E. unfold compress_cell, column_list. now rewrite E. Qed.

Lemma compress_row_same_entry (m m' : ConversionMap) (i : nat)
  (row row' coded coded' : Row) :
  dict_get Nat.eqb i m = dict_get Nat.eqb i m' ->
  nth_error row i = nth_error row' i ->
  compress_row m row = Done coded -> compress_row m' row' = Done coded' ->
  nth_error coded i = nth_error coded' i.
Proof.
  unfold compress_row. rewrite !compress_row_from_cells.
  intros Em Ecell Hc Hc'.
  apply cells_from_done in Hc as [Hlen Hcells].
  apply cells_from_done in Hc' as [Hlen' Hcells'].
  destruct (nth_error row i) as [v|] eqn:Ev.
  - symmetry in Ecell.
    destruct (Hcells i v Ev) as (c & Hc & ->).
    destruct (Hcells' i v Ecell) as (c' & Hc' & ->).
    simpl in Hc, Hc'. rewrite (compress_cell_same_entry m m' i v Em) in Hc.
    congruence.
  - symmetry in Ecell. apply nth_error_None in Ev, Ecell.
    transitivity (@None string); [|symmetry]; apply nth_error_None; lia.
Qed.

(** ** Text *)

Lemma append_assoc (a b c : string) : (a +:+ b) +:+ c = a +:+ (b +:+ c).
Proof. induction a as [|x a IH]; simpl; [reflexivity|now rewrite IH]. Qed.

Lemma append_nil_r (a : string) : a +:+ EmptyString = a.
Proof. induction a as [|x a IH]; simpl; [reflexivity|now rewrite IH]. Qed.

Lemma no_newline_append (a b : string) :
  no_newline (a +:+ b) = no_newline a && no_newline b.
Proof.
  induction a as [|x a IH]; simpl; [reflexivity|].
  now rewrite IH, andb_assoc.
Qed.

Lemma no_newline_concat (sep : string) (l : list string) :
  no_newline sep = true ->
  (forall x, In x l -> no_newline x = true) ->
  no_newline (String.concat sep l) = true.
Proof.
  intros Hsep. induction l as [|x l IH]; intros H; [reflexivity|].
  simpl. destruct l as [|y l].
  - apply H. now left.
  - rewrite !no_newline_append, Hsep, (H x) by now left.
    rewrite IH; [reflexivity|]. intros z I. apply H. now right.
Qed.

Lemma json_escape_no_newline (c : ascii) : no_newline (json_escape c) = true.
Proof. destruct c as [[] [] [] [] [] [] [] []]; reflexivity. Qed.

Lemma json_string_no_newline (s : string) : no_newline (json_string s) = true.
Proof.
  unfold json_string. simpl.
  induction s as [|c s IH]; simpl; [reflexivity|].
  now rewrite append_assoc, no_newline_append, json_escape_no_newline.
Qed.

Lemma json_list_no_newline (l : list string) : no_newline (json_list l) = true.
Proof.
  unfold json_list. simpl. rewrite no_newline_append, andb_true_r.
  apply no_newline_concat; [reflexivity|].
  intros x I. apply in_map_iff in I as (v & <- & _).
  apply json_string_no_newline.
Qed.

Lemma json_dump_no_newline (m : ConversionMap) : no_newline (json_dump m) = true.
Proof.
  unfold json_dump. simpl. rewrite no_newline_append, andb_true_r.
  apply no_newline_concat; [reflexivity|].
  intros x I. apply in_map_iff in I as (e & <- & _). unfold json_item.
  now rewrite !no_newline_append, json_string_no_newline, json_list_no_newline.
Qed.

(** [readline] stops at the first line ending. *)
Lemma readline_first_line (line rest : string) :
  no_newline line = true ->
  readline (line +:+ CRLF +:+ rest) = (line +:+ CRLF, rest).
Proof.
  induction line as [|c line IH]; intros H; [reflexivity|].
  cbn [no_newline] in H. apply andb_true_iff in H as [Hc Hline].
  unfold is_newline in Hc. apply negb_true_iff, orb_false_iff in Hc as [Hlf Hcr].
  cbn [String.append readline]. rewrite Hlf, Hcr.
  now rewrite (IH Hline).
Qed.

Lemma writerow_empty : writerow [] = CRLF.
Proof. reflexivity. Qed.

(** ** [json.loads] reads back what [json.dump] wrote *)

Lemma add_tokens_cons (t : token) (ts : list token) (r : option (list token)) :
  cons_token t (add_tokens ts r) = add_tokens (t :: ts) r.
Proof. now destruct r. Qed.

Lemma add_tokens_app (ts ts' : list token) (r : option (list token)) :
  add_tokens ts (add_tokens ts' r) = add_tokens (ts ++ ts') r.
Proof. destruct r; simpl; [now rewrite app_assoc|reflexivity]. Qed.

Lemma add_tokens_nil (r : option (list token)) : add_tokens [] r = r.
Proof. now destruct r. Qed.

Lemma json_tokens_escape (c : ascii) (acc : list ascii) (t : string) :
  json_tokens (Some acc) (json_escape c +:+ t) = json_tokens (Some (c :: acc)) t.
Proof. destruct c as [[] [] [] [] [] [] [] []]; reflexivity. Qed.

Lemma json_tokens_body (s : string) :
  forall (acc : list ascii) (t : string),
    json_tokens (Some acc) (json_escape_all s +:+ String DQUOTE t)
    = cons_token (STR (rev_string (rev (list_ascii_of_string s) ++ acc)))
        (json_tokens None t).
Proof.
  induction s as [|c s IH]; intros acc t.
  - reflexivity.
  - cbn [json_escape_all list_ascii_of_string rev].
    rewrite append_assoc, json_tokens_escape, IH.
    now rewrite <- app_assoc.
Qed.

Lemma json_tokens_string (s t : string) :
  json_tokens None (json_string s +:+ t)
  = cons_token (STR s) (json_tokens None t).
Proof.
  unfold json_string. cbn [String.append]. rewrite append_assoc.
  change (json_tokens None (String DQUOTE ?x)) with (json_tokens (Some []) x).
  cbn [String.append]. rewrite json_tokens_body, app_nil_r.
  unfold rev_string. now rewrite rev_involutive, string_of_list_ascii_of_string.
Qed.

Lemma json_tokens_more_items (l : list string) (t : string) :
  json_tokens None
    (fold_right (fun v r => ", " +:+ json_string v +:+ r) t l)
  = add_tokens (more_items l) (json_tokens None t).
Proof.
  induction l as [|v l IH]; cbn [fold_right more_items flat_map].
  - now rewrite add_tokens_nil.
  - change (json_tokens None (", " +:+ ?x))
      with (cons_token SEP (json_tokens None x)).
    rewrite json_tokens_string, IH.
    now rewrite !add_tokens_cons.
Qed.

Lemma concat_fold (sep : string) (f : string -> string) (v : string)
  (l : list string) (t : string) :
  String.concat sep (map f (v :: l)) +:+ t
  = f v +:+ fold_right (fun x r => sep +:+ f x +:+ r) t l.
Proof.
  revert v. induction l as [|w l IH]; intros v.
  - reflexivity.
  - change (String.concat sep (map f (v :: w :: l)))
      with (f v +:+ sep +:+ String.concat sep (map f (w :: l))).
    rewrite !append_assoc, IH. reflexivity.
Qed.

Lemma json_tokens_list (l : list string) (t : string) :
  json_tokens None (json_list l +:+ t)
  = add_tokens (list_tokens l) (json_tokens None t).
Proof.
  unfold json_list, list_tokens. destruct l as [|v l].
  - cbn. now destruct (json_tokens None t).
  - rewrite !append_assoc.
    change (json_tokens None ("[" +:+ ?x))
      with (cons_token LBRACKET (json_tokens None x)).
    rewrite concat_fold, json_tokens_string, json_tokens_more_items.
    change (json_tokens None ("]" +:+ t))
      with (cons_token RBRACKET (json_tokens None t)).
    destruct (json_tokens None t); cbn; [|reflexivity].
    now rewrite <- app_assoc.
Qed.

Lemma json_tokens_item (entry : nat * list string) (t : string) :
  json_tokens None (json_item entry +:+ t)
  = add_tokens (entry_tokens entry) (json_tokens None t).
Proof.
  unfold json_item, entry_tokens. rewrite !append_assoc, json_tokens_string.
  change (json_tokens None (": " +:+ ?x))
    with (cons_token COLON (json_tokens None x)).
  rewrite json_tokens_list. now rewrite !add_tokens_cons.
Qed.

Lemma json_tokens_more_entries (m : ConversionMap) (t : string) :
  json_tokens None
    (fold_right (fun entry r => ", " +:+ json_item entry +:+ r) t m)
  = add_tokens (more_entries m) (json_tokens None t).
Proof.
  induction m as [|entry m IH]; cbn [fold_right more_entries flat_map].
  - now rewrite add_tokens_nil.
  - change (json_tokens None (", " +:+ ?x))
      with (cons_token SEP (json_tokens None x)).
    rewrite json_tokens_item, IH.
    now rewrite add_tokens_app, add_tokens_cons.
Qed.

Lemma concat_fold_items (sep : string) (entry : nat * list string)
  (m : ConversionMap) (t : string) :
  String.concat sep (map json_item (entry :: m)) +:+ t
  = json_item entry
    +:+ fold_right (fun x r => sep +:+ json_item x +:+ r) t m.
Proof.
  revert entry. induction m as [|w m IH]; intros entry.
  - reflexivity.
  - change (String.concat sep (map json_item (entry :: w :: m)))
      with (json_item entry
            +:+ sep +:+ String.concat sep (map json_item (w :: m))).
    rewrite !append_assoc, IH. reflexivity.
Qed.

Lemma json_tokens_dump (m : ConversionMap) :
  json_tokens None (json_dump m +:+ CRLF) = Some (dump_tokens m).
Proof.
  unfold json_dump, dump_tokens. destruct m as [|entry m].
  - reflexivity.
  - rewrite !append_assoc.
    change (json_tokens None ("{" +:+ ?x))
      with (cons_token LBRACE (json_tokens None x)).
    rewrite concat_fold_items, json_tokens_item, json_tokens_more_entries.
    change (json_tokens None ("}" +:+ CRLF)) with (Some [RBRACE]).
    cbn [add_tokens cons_token option_map]. now rewrite app_assoc.
Qed.

Lemma json_parse_more_items (d : LoadedMap) (k : string) (l : list string) :
  forall (items : list string) (ts : list token),
    json_parse (AfterItem d k items) (more_items l ++ RBRACKET :: ts)
    = json_parse (AfterList (dict_set String.eqb k (items ++ l) d)) ts.
Proof.
  induction l as [|v l IH]; intros items ts; cbn.
  - now rewrite app_nil_r.
  - change (flat_map (fun v => [SEP; STR v]) l) with (more_items l).
    rewrite IH. now rewrite <- app_assoc.
Qed.

Lemma json_parse_list (d : LoadedMap) (k : string) (l : list string)
  (ts : list token) :
  json_parse (AtList d k) (list_tokens l ++ ts)
  = json_parse (AfterList (dict_set String.eqb k l d)) ts.
Proof.
  unfold list_tokens. destruct l as [|v l]; [reflexivity|].
  cbn. rewrite <- app_assoc. cbn [app].
  now rewrite json_parse_more_items.
Qed.

Lemma json_parse_entry (d : LoadedMap) (entry : nat * list string)
  (ts : list token) :
  json_parse (AtKey d) (entry_tokens entry ++ ts)
  = json_parse
      (AfterList (dict_set String.eqb (str (fst entry)) (snd entry) d)) ts.
Proof. unfold entry_tokens. cbn. apply json_parse_list. Qed.

Lemma json_parse_first_entry (entry : nat * list string) (ts : list token) :
  json_parse AtFirstKey (entry_tokens entry ++ ts)
  = json_parse
      (AfterList (dict_set String.eqb (str (fst entry)) (snd entry) [])) ts.
Proof. unfold entry_tokens. cbn. apply json_parse_list. Qed.

Lemma json_parse_more_entries (m : ConversionMap) :
  forall d : LoadedMap,
    json_parse (AfterList d) (more_entries m ++ [RBRACE])
    = Some
        (fold_left
           (fun d entry => dict_set String.eqb (str (fst entry)) (snd entry) d)
           m d).
Proof.
  induction m as [|entry m IH]; intros d; [reflexivity|].
  cbn [more_entries flat_map]. fold (more_entries m).
  cbn [app json_parse json_step]. rewrite <- app_assoc, json_parse_entry.
  now rewrite IH.
Qed.

Lemma json_parse_dump (m : ConversionMap) :
  json_parse AtStart (dump_tokens m)
  = Some
      (fold_left
         (fun d entry => dict_set String.eqb (str (fst entry)) (snd entry) d)
         m []).
Proof.
  unfold dump_tokens. destruct m as [|entry m]; [reflexivity|].
  cbn [app json_parse json_step]. rewrite <- app_assoc, json_parse_first_entry.
  now rewrite json_parse_more_entries.
Qed.

Lemma load_entries (m : ConversionMap) :
  forall d : LoadedMap,
    NoDup (map fst d ++ map fst (loaded m)) ->
    fold_left
      (fun d entry => dict_set String.eqb (str (fst entry)) (snd entry) d)
      m d
    = d ++ loaded m.
Proof.
  induction m as [|entry m IH]; intros d H; simpl.
  - now rewrite app_nil_r.
  - simpl in H. pose proof (NoDup_remove_2 _ _ _ H) as Hni.
    rewrite (dict_set_new String.eqb string_eqb_spec).
    + rewrite IH.
      * now rewrite <- app_assoc.
      * rewrite map_app, <- app_assoc. exact H.
    + apply (dict_get_none String.eqb string_eqb_spec).
      intros I. apply Hni. apply in_or_app. now left.
Qed.

Lemma loaded_nodup (m : ConversionMap) :
  NoDup (map fst m) -> NoDup (map fst (loaded m)).
Proof.
  intros H. unfold loaded. rewrite map_map. simpl.
  rewrite <- (map_map fst str).
  apply Finite.Injective_map_NoDup; [|assumption].
  intros a b. apply str_inj.
Qed.

Lemma conversion_map_nodup (table : Table) :
  NoDup (map fst (get_conversion_map table)).
Proof.
  unfold get_conversion_map.
  rewrite (sort_columns_map _ (count_table_nodup table)), map_map. simpl.
  apply count_table_nodup.
Qed.

(** The map line of the compressed file loads as the conversion map, with
    the column indices as strings. *)
Lemma json_loads_dump (m : ConversionMap) :
  NoDup (map fst m) -> json_loads (json_dump m +:+ CRLF) = Some (loaded m).
Proof.
  intros H. unfold json_loads.
  rewrite json_tokens_dump, json_parse_dump, load_entries; [reflexivity|].
  simpl. now apply loaded_nodup.
Qed.

(** ** [csv.reader] reads back what [csv.writer] wrote *)

Lemma rev_string_rev (f : string) :
  rev_string (rev (list_ascii_of_string f)) = f.
Proof.
  unfold rev_string. now rewrite rev_involutive, string_of_list_ascii_of_string.
Qed.

Lemma file_lines_nonempty (t : string) :
  t <> EmptyString -> file_lines t <> [].
Proof.
  destruct t as [|c t]; [congruence|]. intros _. simpl.
  destruct (Ascii.eqb c LF); [discriminate|].
  destruct (Ascii.eqb c CR).
  - destruct t as [|c' t]; [discriminate|].
    destruct (Ascii.eqb c' LF); discriminate.
  - destruct (file_lines t); discriminate.
Qed.

(** A character that does not end a line is handed to the parser, and the
    reading goes on in the same line. *)
Lemma read_rows_char (r : reader) (c : ascii) (t : string) :
  is_newline c = false -> t <> EmptyString ->
  read_rows r (file_lines (String c t))
  = match parse_process_char r c with
    | Done r' => read_rows r' (file_lines t)
    | Raise e => ([], Some e)
    end.
Proof.
  intros Hc Ht. apply orb_false_iff in Hc as [Hlf Hcr].
  cbn [file_lines]. rewrite Hlf, Hcr.
  destruct (file_lines t) as [|line rest] eqn:E.
  - now apply file_lines_nonempty in Ht.
  - cbn [read_rows parse_line]. destruct (parse_process_char r c); reflexivity.
Qed.

(** Inside a quoted field every character but the quote is kept, line
    endings included, and the end of a line changes nothing. *)
Lemma read_rows_in_quotes (acc : list ascii) (fs : list string) (c : ascii)
  (t : string) :
  Ascii.eqb c DQUOTE = false ->
  read_rows (mkReader IN_QUOTED_FIELD acc fs) (file_lines (String c t))
  = read_rows (mkReader IN_QUOTED_FIELD (c :: acc) fs) (file_lines t).
Proof.
  intros Hq. cbn [file_lines].
  destruct (Ascii.eqb_spec c LF) as [->|Hlf].
  { reflexivity. }
  destruct (Ascii.eqb_spec c CR) as [->|Hcr].
  { destruct t as [|c' t]; [reflexivity|].
    destruct (Ascii.eqb_spec c' LF) as [->|Hlf']; [reflexivity|].
    reflexivity. }
  destruct (file_lines t) as [|line rest];
    cbn [read_rows parse_line parse_process_char state Py.bind];
    rewrite Hq; reflexivity.
Qed.

Lemma read_rows_quoted_body (f : string) :
  forall (acc : list ascii) (fs : list string) (t : string),
    t <> EmptyString ->
    read_rows (mkReader IN_QUOTED_FIELD acc fs)
      (file_lines (double_quotes f +:+ String DQUOTE t))
    = read_rows
        (mkReader QUOTE_IN_QUOTED_FIELD
           (rev (list_ascii_of_string f) ++ acc) fs)
        (file_lines t).
Proof.
  induction f as [|c f IH]; intros acc fs t Ht.
  - cbn [double_quotes String.append list_ascii_of_string rev app].
    now rewrite read_rows_char by (trivial; reflexivity).
  - cbn [double_quotes list_ascii_of_string rev].
    rewrite <- app_assoc. cbn [app].
    destruct (Ascii.eqb_spec c DQUOTE) as [->|Hq].
    + cbn [String.append].
      rewrite read_rows_char by (reflexivity || discriminate).
      cbn [parse_process_char state]. change (Ascii.eqb DQUOTE DQUOTE) with true.
      cbv iota. rewrite read_rows_char.
      * cbn. now apply IH.
      * reflexivity.
      * destruct (double_quotes f); discriminate.
    + cbn [String.append]. rewrite read_rows_in_quotes.
      * now apply IH.
      * now apply Ascii.eqb_neq.
Qed.

Lemma special_false (c : ascii) :
  special c = false ->
  Ascii.eqb c COMMA = false /\ Ascii.eqb c DQUOTE = false /\
  is_newline c = false.
Proof.
  unfold special, is_newline. intros H.
  apply orb_false_iff in H as [H Hlf].
  apply orb_false_iff in H as [H Hcr].
  apply orb_false_iff in H as [Hcomma Hq].
  now rewrite Hcomma, Hq, Hlf, Hcr.
Qed.

Lemma read_rows_plain_body (f : string) :
  forall (acc : list ascii) (fs : list string) (t : string),
    needs_quotes f = false -> t <> EmptyString ->
    read_rows (mkReader IN_FIELD acc fs) (file_lines (f +:+ t))
    = read_rows
        (mkReader IN_FIELD (rev (list_ascii_of_string f) ++ acc) fs)
        (file_lines t).
Proof.
  induction f as [|c f IH]; intros acc fs t Hf Ht; [reflexivity|].
  cbn [needs_quotes] in Hf. apply orb_false_iff in Hf as [Hc Hf].
  destruct (special_false c Hc) as (Hcomma & Hq & Hnl).
  cbn [String.append list_ascii_of_string rev].
  rewrite <- app_assoc. cbn [app].
  rewrite read_rows_char; [|assumption|destruct f; [assumption|discriminate]].
  cbn [parse_process_char state]. rewrite Hnl, Hcomma.
  now apply IH.
Qed.

Lemma read_rows_comma (f : string) (fs : list string) (r : reader) (t : string) :
  field_read f fs r \/ (f = EmptyString /\ r = mkReader START_RECORD [] fs) ->
  t <> EmptyString ->
  read_rows r (file_lines (String COMMA t))
  = read_rows (mkReader START_FIELD [] (f :: fs)) (file_lines t).
Proof.
  intros Hr Ht. rewrite read_rows_char by (trivial; reflexivity).
  destruct Hr as [[ | | -> ] | [ -> -> ]]; cbn;
    unfold parse_save_field; cbn [field fields];
    try rewrite rev_string_rev; reflexivity.
Qed.

Lemma read_rows_end (f : string) (fs : list string) (r : reader) (t : string) :
  field_read f fs r ->
  read_rows r (file_lines (CRLF +:+ t))
  = (let (rows, e) := read_rows parse_reset (file_lines t) in
     (rev (f :: fs) :: rows, e)).
Proof.
  intros [ | | -> ]; cbn -[rev]; unfold parse_save_field; cbn [field fields];
    try rewrite rev_string_rev; reflexivity.
Qed.

Lemma read_rows_field (f : string) (fs : list string) (st : parser_state)
  (t : string) :
  st = START_RECORD \/ st = START_FIELD ->
  t <> EmptyString ->
  exists r,
    (field_read f fs r \/
     (f = EmptyString /\ st = START_RECORD /\ r = mkReader START_RECORD [] fs))
    /\ read_rows (mkReader st [] fs) (file_lines (csv_field f +:+ t))
       = read_rows r (file_lines t).
Proof.
  intros Hst Ht. unfold csv_field. destruct (needs_quotes f) eqn:Hq.
  - exists (mkReader QUOTE_IN_QUOTED_FIELD (rev (list_ascii_of_string f)) fs).
    split; [left; constructor|].
    unfold quoted. cbn [String.append]. rewrite append_assoc.
    rewrite read_rows_char;
      [|reflexivity|destruct (double_quotes f); discriminate].
    replace (parse_process_char (mkReader st [] fs) DQUOTE)
      with (Done (mkReader IN_QUOTED_FIELD [] fs))
      by (destruct Hst as [->| ->]; reflexivity).
    cbn [String.append]. rewrite read_rows_quoted_body by assumption.
    now rewrite app_nil_r.
  - destruct f as [|c f].
    + destruct Hst as [->| ->].
      * exists (mkReader START_RECORD [] fs).
        split; [right; now repeat split|reflexivity].
      * exists (mkReader START_FIELD [] fs).
        split; [left; now constructor|reflexivity].
    + exists (mkReader IN_FIELD (rev (list_ascii_of_string (String c f))) fs).
      split; [left; constructor|].
      cbn [needs_quotes] in Hq. apply orb_false_iff in Hq as [Hc Hf].
      destruct (special_false c Hc) as (Hcomma & Hdq & Hnl).
      cbn [String.append list_ascii_of_string rev].
      rewrite read_rows_char; [|assumption|destruct f; [assumption|discriminate]].
      replace (parse_process_char (mkReader st [] fs) c)
        with (Done (mkReader IN_FIELD [c] fs)).
      * now rewrite read_rows_plain_body.
      * destruct Hst as [->| ->]; cbn; unfold start_field;
          now rewrite Hnl, Hdq, Hcomma.
Qed.

Lemma read_rows_fields (l : list string) :
  forall (g : string) (fs : list string) (t : string),
    read_rows (mkReader START_FIELD [] fs)
      (file_lines
         (String.concat (String COMMA EmptyString) (map csv_field (g :: l))
          +:+ CRLF +:+ t))
    = (let (rows, e) := read_rows parse_reset (file_lines t) in
       ((rev fs ++ g :: l) :: rows, e)).
Proof.
  induction l as [|h l IH]; intros g fs t.
  - cbn [map String.concat].
    destruct (read_rows_field g fs START_FIELD (CRLF +:+ t))
      as (r & [Hr|(_ & Hst & _)] & ->);
      [now right|discriminate| |discriminate].
    now rewrite (read_rows_end g fs r t Hr).
  - change (String.concat (String COMMA EmptyString)
              (map csv_field (g :: h :: l)))
      with (csv_field g
            +:+ String COMMA
                  (String.concat (String COMMA EmptyString)
                     (map csv_field (h :: l)))).
    rewrite append_assoc. cbn [String.append].
    destruct (read_rows_field g fs START_FIELD
                (String COMMA
                   (String.concat (String COMMA EmptyString)
                      (map csv_field (h :: l)) +:+ CRLF +:+ t)))
      as (r & Hr & ->); [now right|discriminate|].
    rewrite (read_rows_comma g fs r).
    + rewrite IH. cbn [rev]. now rewrite <- app_assoc.
    + destruct Hr as [Hr|(E & _ & Er)]; [now left|now right].
    + destruct (String.concat (String COMMA EmptyString)
                  (map csv_field (h :: l))); discriminate.
Qed.

(** One row written, one row read. *)
Lemma read_rows_row (row : Row) (t : string) :
  read_rows parse_reset (file_lines (writerow row +:+ t))
  = (let (rows, e) := read_rows parse_reset (file_lines t) in
     (row :: rows, e)).
Proof.
  destruct row as [|f [|g l]].
  - reflexivity.
  - destruct f as [|c f]; [reflexivity|].
    change (writerow [String c f]) with (csv_field (String c f) +:+ CRLF).
    rewrite append_assoc.
    destruct (read_rows_field (String c f) [] START_RECORD (CRLF +:+ t))
      as (r & [Hr|(E & _)] & Hread);
      [now left|discriminate| |discriminate].
    unfold parse_reset at 1. rewrite Hread.
    now rewrite (read_rows_end _ [] r t Hr).
  - replace (writerow (f :: g :: l))
      with (csv_field f
            +:+ String COMMA
                  (String.concat (String COMMA EmptyString)
                     (map csv_field (g :: l)) +:+ CRLF))
      by (destruct f; unfold writerow; cbn [map String.concat];
          now rewrite !append_assoc).
    rewrite append_assoc. cbn [String.append]. rewrite append_assoc.
    destruct (read_rows_field f [] START_RECORD
                (String COMMA
                   (String.concat (String COMMA EmptyString)
                      (map csv_field (g :: l)) +:+ CRLF +:+ t)))
      as (r & Hr & Hread); [now left|discriminate|].
    unfold parse_reset at 1. rewrite Hread.
    rewrite (read_rows_comma f [] r).
    + now rewrite read_rows_fields.
    + destruct Hr as [Hr|(E & _ & Er)]; [now left|now right].
    + destruct (String.concat (String COMMA EmptyString)
                  (map csv_field (g :: l))); discriminate.
Qed.

(** The reader yields the rows that the writer was given, whatever their
    cells. *)
Lemma csv_reader_writerows (rows : list Row) :
  csv_reader (writerows rows) = (rows, None).
Proof.
  unfold csv_reader. induction rows as [|row rows IH]; [reflexivity|].
  cbn [writerows]. now rewrite read_rows_row, IH.
Qed.

(** ** The compressed file *)

Lemma compressed_file (table written : Table) :
  compress_rows (get_conversion_map table) table = (written, None) ->
  compress_csv_and_save table
  = (json_dump (get_conversion_map table) +:+ CRLF +:+ writerows written,
     None).
Proof.
  intros H. unfold compress_csv_and_save. now rewrite H, writerow_empty.
Qed.

Lemma decompress_written (m : ConversionMap) (written : Table) :
  NoDup (map fst m) ->
  decompress_file_and_save (json_dump m +:+ CRLF +:+ writerows written)
  = Some (let (rows, e) := decompress_rows (loaded m) written in
          (writerows rows, e)).
Proof.
  intros Hm. unfold decompress_file_and_save.
  rewrite (readline_first_line _ _ (json_dump_no_newline m)).
  rewrite (json_loads_dump m Hm), csv_reader_writerows.
  destruct (decompress_rows (loaded m) written) as [rows [e|]]; reflexivity.
Qed.

(** ** The first cell that raises, and what a cell is replaced by *)

Lemma cells_from_raise_first (f : nat -> string -> result string) (row : Row) :
  forall k j v e,
    nth_error row j = Some v -> f (k + j)%nat v = Raise e ->
    (forall j' v', (j' < j)%nat -> nth_error row j' = Some v' ->
       exists c, f (k + j')%nat v' = Done c) ->
    cells_from f k row = Raise e.
Proof.
  induction row as [|x rest IH]; intros k j v e Hj He Hleft.
  - destruct j; discriminate.
  - cbn [cells_from]. destruct j as [|j]; simpl in Hj.
    + injection Hj as ->. rewrite Nat.add_0_r in He. now rewrite He.
    + destruct (Hleft 0%nat x) as [c Hc]; [lia|reflexivity|].
      rewrite Nat.add_0_r in Hc. rewrite Hc. cbn [Py.bind].
      rewrite (IH (S k) j v e); [reflexivity|assumption| |].
      * now replace (S k + j)%nat with (k + S j)%nat by lia.
      * intros j' v' Hlt Hn.
        destruct (Hleft (S j') v') as [c' Hc']; [lia|assumption|].
        exists c'. now replace (S k + j')%nat with (k + S j')%nat by lia.
Qed.

Lemma getitem_element (l : list string) (pos : Z) (v : string) :
  getitem l pos = Some v <-> element_at l pos v.
Proof.
  unfold getitem, element_at.
  destruct (Z.leb_spec 0 pos) as [Hp|Hp].
  - split; [intros H; left; now split|].
    intros [[_ H]|[Hn _]]; [assumption|lia].
  - destruct (Z.leb_spec (- Z.of_nat (List.length l)) pos) as [Hq|Hq].
    + replace (Z.to_nat (Z.of_nat (List.length l) + pos))
        with (List.length l - Z.to_nat (- pos))%nat by lia.
      split.
      * intros H. right. split; [assumption|]. split; [lia|assumption].
      * intros [[Hn _]|(_ & _ & H)]; [lia|assumption].
    + split; [discriminate|].
      intros [[Hn _]|(_ & Hn & _)]; lia.
Qed.

Lemma startswith_marker_iff (c : string) :
  startswith c "&" = true <-> exists suffix, c = String "&" suffix.
Proof.
  unfold startswith. destruct c as [|a c]; cbn [String.prefix].
  - split; [discriminate|]. intros [suffix H]. discriminate.
  - destruct (ascii_dec "&" a) as [E|Hne].
    + subst a. split; [intros _; now exists c|].
      intros _. destruct c; reflexivity.
    + split; [discriminate|]. intros [suffix H]. injection H as E _.
      congruence.
Qed.

Lemma decompress_cell_substituted (lm : LoadedMap) (i : nat) (c c' : string) :
  NoDup (map fst lm) ->
  (decompress_cell lm i c = Done c' <-> substituted lm i c c').
Proof.
  intros Hkeys. unfold decompress_cell, substituted.
  destruct (startswith c "&") eqn:Em.
  - apply startswith_marker_iff in Em as [suffix0 ->]. cbn [tail]. split.
    + intros H. split.
      * intros suffix [= <-].
        destruct (dict_get String.eqb (str i) lm) as [l|] eqn:El;
          [|discriminate].
        destruct (int suffix0) as [pos|]; [|discriminate].
        destruct (getitem l pos) as [v|] eqn:Eg; [|discriminate].
        injection H as <-. exists l, pos.
        split; [now apply (dict_get_in String.eqb string_eqb_spec)|].
        split; [reflexivity|]. now apply getitem_element.
      * intros Hno. now destruct (Hno suffix0).
    + intros [H _]. destruct (H suffix0 eq_refl) as (l & pos & Il & Hi & He).
      rewrite (in_dict_get String.eqb string_eqb_spec _ _ _ Hkeys Il), Hi.
      apply getitem_element in He. now rewrite He.
  - assert (Hno : forall suffix, c <> String "&" suffix).
    { intros suffix E.
      assert (Et : startswith c "&" = true)
        by (apply startswith_marker_iff; now exists suffix).
      congruence. }
    split.
    + intros [= <-]. split; [|reflexivity].
      intros suffix E. now destruct (Hno suffix).
    + intros [_ H]. now rewrite (H Hno).
Qed.

(** ** The claims *)

(** C1, the claim as stated fails: in [marker_table] the literal cell [&0]
    is too short to be substituted, stays as it is, and is decoded as a
    reference to [abc]. *)
Lemma C1_counterexample :
  compress_rows (get_conversion_map marker_table) marker_table
  = ([["&0"]; ["&0"]], None) /\
  decompress_rows (loaded (get_conversion_map marker_table)) [["&0"]; ["&0"]]
  = ([["abc"]; ["abc"]], None) /\
  [["abc"]; ["abc"]] <> marker_table.
Proof.
  split; [reflexivity|]. split; [reflexivity|]. discriminate.
Qed.

(** C1, amended: for every table in which no cell of at most two
    characters starts with the marker, encoding with the map built from the
    table succeeds, and decoding the result with that same map gives back
    the table, cell for cell. *)
Theorem C1_round_trip (table : Table) (Hfree : marker_free table) :
  exists written,
    compress_rows (get_conversion_map table) table = (written, None) /\
    decompress_rows (loaded (get_conversion_map table)) written
    = (table, None).
Proof.
  destruct (compress_rows_built table) as [written Hc].
  exists written. split; [assumption|].
  now apply rows_round_trip.
Qed.

Lemma C1_round_trip_witness :
  exists written,
    compress_rows (get_conversion_map fruit_table) fruit_table
    = (written, None) /\
    decompress_rows (loaded (get_conversion_map fruit_table)) written
    = (fruit_table, None).
Proof.
  apply (C1_round_trip fruit_table).
  intros row v Ir Iv Hlen. simpl in Ir.
  repeat (destruct Ir as [<-|Ir]; [destruct Iv as [<-|[]]; reflexivity|]).
  destruct Ir.
Defined.

(** C2, the claim as stated fails: the suffix of [&-1] is not a
    non-negative integer, yet the cell is decoded, to the last value of the
    column. *)
Lemma C2_counterexample :
  startswith "&-1" "&" = true /\
  (~ exists n : nat, int (tail "&-1") = Some (Z.of_nat n)) /\
  decompress_cell [("0", ["abc"; "def"])] 0 "&-1" = Done "def".
Proof.
  split; [reflexivity|]. split; [|reflexivity].
  intros [n H]. vm_compute in H. destruct n; discriminate.
Qed.

(** C2, amended: a marker-prefixed cell raises, in the order in which the
    decoder looks: [KeyError] when its column has no entry in the map,
    whatever the suffix; otherwise [ValueError] when [int] rejects the
    suffix; otherwise [IndexError] when the parsed index [pos] is outside
    [-len .. len-1] of the column's sequence.  The row of such a cell raises
    and is not written, the rows before it are; when the cells to its left
    decode, the row raises the exception of that cell.  In particular [&99]
    raises in a column whose sequence has fewer than 100 entries:
    [KeyError] without an entry, [IndexError] with one. *)
Theorem C2_malformed_reference (lm : LoadedMap) (i : nat) (c : string)
  (Hmarker : startswith c "&" = true)
  (Hbad :
     dict_get String.eqb (str i) lm = None \/
     int (tail c) = None \/
     exists l pos,
       dict_get String.eqb (str i) lm = Some l /\
       int (tail c) = Some pos /\
       (pos < - Z.of_nat (List.length l) \/ Z.of_nat (List.length l) <= pos)%Z) :
  exists e,
    decompress_cell lm i c = Raise e /\
    (dict_get String.eqb (str i) lm = None -> e = KeyError) /\
    (dict_get String.eqb (str i) lm <> None -> int (tail c) = None ->
     e = ValueError) /\
    (dict_get String.eqb (str i) lm <> None -> int (tail c) <> None ->
     e = IndexError) /\
    (forall row, nth_error row i = Some c ->
       (exists e', decompress_row lm row = Raise e') /\
       ((forall j c', (j < i)%nat -> nth_error row j = Some c' ->
           exists v, decompress_cell lm j c' = Done v) ->
        decompress_row lm row = Raise e)) /\
    (forall before written row after,
       nth_error row i = Some c ->
       Forall2 (fun r r' => decompress_row lm r = Done r') before written ->
       (exists e',
          decompress_rows lm (before ++ row :: after) = (written, Some e')) /\
       ((forall j c', (j < i)%nat -> nth_error row j = Some c' ->
           exists v, decompress_cell lm j c' = Done v) ->
        decompress_rows lm (before ++ row :: after) = (written, Some e))) /\
    ((forall l, dict_get String.eqb (str i) lm = Some l ->
                (List.length l < 100)%nat) ->
     (dict_get String.eqb (str i) lm = None ->
      decompress_cell lm i "&99" = Raise KeyError) /\
     (dict_get String.eqb (str i) lm <> None ->
      decompress_cell lm i "&99" = Raise IndexError)).
Proof.
  assert (Hcell : exists e,
            decompress_cell lm i c = Raise e /\
            (dict_get String.eqb (str i) lm = None -> e = KeyError) /\
            (dict_get String.eqb (str i) lm <> None ->
             int (tail c) = None -> e = ValueError) /\
            (dict_get String.eqb (str i) lm <> None ->
             int (tail c) <> None -> e = IndexError)).
  { unfold decompress_cell. rewrite Hmarker.
    destruct (dict_get String.eqb (str i) lm) as [l|] eqn:El.
    - destruct (int (tail c)) as [pos|] eqn:Ei.
      + exists IndexError.
        destruct Hbad as [Hb | [Hb | (l' & pos' & Hl & Hp & Hpos)]];
          try discriminate.
        injection Hl as <-. injection Hp as <-.
        rewrite (getitem_out_of_range l pos Hpos).
        split; [reflexivity|]. split; [discriminate|].
        split; [intros _ Hn; discriminate|reflexivity].
      + exists ValueError. split; [reflexivity|]. split; [discriminate|].
        split; [reflexivity|]. intros _ Hn. now destruct Hn.
    - exists KeyError. split; [reflexivity|]. split; [reflexivity|].
      split; intros Hn; now destruct Hn. }
  destruct Hcell as (e & He & Hkey & Hvalue & Hindex).
  assert (Hrow : forall row, nth_error row i = Some c ->
            (exists e', decompress_row lm row = Raise e') /\
            ((forall j c', (j < i)%nat -> nth_error row j = Some c' ->
                exists v, decompress_cell lm j c' = Done v) ->
             decompress_row lm row = Raise e)).
  { intros row Hc. unfold decompress_row.
    rewrite decompress_row_from_cells. split.
    - now apply (cells_from_raise _ row 0%nat i c e).
    - intros Hleft. now apply (cells_from_raise_first _ row 0%nat i c e). }
  exists e. split; [exact He|]. split; [exact Hkey|].
  split; [exact Hvalue|]. split; [exact Hindex|]. split; [exact Hrow|]. split.
  - intros before written row after Hc Hb.
    destruct (Hrow row Hc) as [[e' He'] Hfirst]. split.
    + exists e'. unfold decompress_rows. now apply write_rows_raise.
    + intros Hleft. unfold decompress_rows.
      apply write_rows_raise; [assumption|]. now apply Hfirst.
  - intros Hshort.
    assert (E99 : int (tail "&99") = Some 99%Z) by reflexivity.
    assert (Em : startswith "&99" "&" = true) by reflexivity.
    unfold decompress_cell. rewrite Em, E99.
    destruct (dict_get String.eqb (str i) lm) as [l|].
    + split; [discriminate|]. intros _.
      rewrite getitem_out_of_range; [reflexivity|].
      specialize (Hshort l eq_refl). lia.
    + split; [reflexivity|]. intros Hn. now destruct Hn.
Qed.

Lemma C2_malformed_reference_witness :
  decompress_cell [("0", ["abc"; "def"])] 0 "&99" = Raise IndexError.
Proof.
  assert (Hbad :
            dict_get String.eqb (str 0) [("0", ["abc"; "def"])] = None \/
            int (tail "&99") = None \/
            exists l pos,
              dict_get String.eqb (str 0) [("0", ["abc"; "def"])] = Some l /\
              int (tail "&99") = Some pos /\
              (pos < - Z.of_nat (List.length l) \/
               Z.of_nat (List.length l) <= pos)%Z).
  { right. right. exists ["abc"; "def"], 99%Z.
    split; [reflexivity|]. split; [reflexivity|]. right. simpl. lia. }
  destruct (C2_malformed_reference [("0", ["abc"; "def"])] 0 "&99"
              eq_refl Hbad) as (e & He & _ & _ & Hindex & _).
  rewrite He. f_equal. apply Hindex; discriminate.
Defined.

(** C3: in every sequence of the conversion map a value with more
    occurrences in its column comes first, and of two values with equally
    many occurrences the one first seen in the scan comes first; the
    sequence is the same for every table that has these cells in the
    column, so building twice gives the same sequence; the cells apple,
    banana, apple, cherry, apple, banana give apple, banana, cherry. *)
Theorem C3_ranking (table : Table) (i : nat) (s : list string)
  (Hs : dict_get Nat.eqb i (get_conversion_map table) = Some s) :
  (forall p q u v,
     (p < q)%nat -> nth_error s p = Some u -> nth_error s q = Some v ->
     exists a b,
       list_index u (column i table) = Some a /\
       list_index v (column i table) = Some b /\
       ((occurrences v (column i table) < occurrences u (column i table))%nat \/
        (occurrences u (column i table) = occurrences v (column i table) /\
         (a < b)%nat))) /\
  (forall table',
     column i table' = column i table ->
     dict_get Nat.eqb i (get_conversion_map table') = Some s) /\
  (column i table = fruit_column -> s = ["apple"; "banana"; "cherry"]).
Proof.
  split; [|split].
  - intros p q u v Hpq Hp Hq.
    destruct (conversion_map_entry _ _ _ Hs) as (d & Hok & ->).
    assert (Iu : In u (column i table)).
    { apply nth_error_In in Hp. apply (rank_column_in _ _ _ Hok) in Hp. tauto. }
    assert (Iv : In v (column i table)).
    { apply nth_error_In in Hq. apply (rank_column_in _ _ _ Hok) in Hq. tauto. }
    destruct (list_index_in _ _ Iu) as [a Ha].
    destruct (list_index_in _ _ Iv) as [b Hb].
    exists a, b. split; [assumption|]. split; [assumption|].
    pose proof (rank_column_order _ _ Hok p q u v Hpq Hp Hq) as Hr.
    unfold first_seen in Hr. now rewrite Ha, Hb in Hr.
  - intros table' Hcol. rewrite conversion_map_get, Hcol.
    now rewrite <- conversion_map_get.
  - intros Hcol. rewrite conversion_map_get, Hcol in Hs.
    vm_compute in Hs. now injection Hs as <-.
Qed.

Lemma C3_ranking_witness :
  dict_get Nat.eqb 0 (get_conversion_map fruit_table)
  = Some ["apple"; "banana"; "cherry"] /\
  (forall table',
     column 0 table' = column 0 fruit_table ->
     dict_get Nat.eqb 0 (get_conversion_map table')
     = Some ["apple"; "banana"; "cherry"]).
Proof.
  split; [reflexivity|].
  exact (proj1 (proj2 (C3_ranking fruit_table 0
                         ["apple"; "banana"; "cherry"] eq_refl))).
Defined.

(** C4: with the map built from the table being encoded, encoding never
    raises; every cell longer than two characters is found in the sequence
    of its column, at a valid position, and is replaced by the marker and
    that position; a value that is not in the sequence stays as it is. *)
Theorem C4_lookup_succeeds (table : Table) :
  exists written,
    compress_rows (get_conversion_map table) table = (written, None) /\
    Forall2
      (fun row row' =>
         List.length row' = List.length row /\
         forall i v, nth_error row i = Some v ->
           ((2 < len v)%nat ->
            exists pos,
              list_index v (column_list (get_conversion_map table) i)
              = Some pos /\
              (pos < List.length (column_list (get_conversion_map table) i))%nat /\
              nth_error row' i = Some ("&" +:+ str pos)) /\
           (~ In v (column_list (get_conversion_map table) i) ->
            nth_error row' i = Some v))
      table written.
Proof.
  destruct (compress_rows_built table) as [written Hc].
  exists written. split; [assumption|].
  apply write_rows_done in Hc.
  assert (G : forall rows ws,
            (forall row, In row rows -> In row table) ->
            Forall2
              (fun row row' =>
                 compress_row (get_conversion_map table) row = Done row')
              rows ws ->
            Forall2
              (fun row row' =>
                 List.length row' = List.length row /\
                 forall i v, nth_error row i = Some v ->
                   ((2 < len v)%nat ->
                    exists pos,
                      list_index v (column_list (get_conversion_map table) i)
                      = Some pos /\
                      (pos < List.length
                               (column_list (get_conversion_map table) i))%nat /\
                      nth_error row' i = Some ("&" +:+ str pos)) /\
                   (~ In v (column_list (get_conversion_map table) i) ->
                    nth_error row' i = Some v))
              rows ws).
  { intros rows ws Hin H. induction H as [|row row' rows ws Hrow _ IH];
      constructor.
    - unfold compress_row in Hrow. rewrite compress_row_from_cells in Hrow.
      apply cells_from_done in Hrow as [Hlen Hcells].
      split; [assumption|]. intros i v Hv.
      destruct (Hcells i v Hv) as (c & Hc' & Hn). simpl in Hc'. split.
      + intros Hlong.
        destruct (compress_cell_built table row i v
                    (Hin row (or_introl eq_refl)) Hv Hlong)
          as (pos & Hpos & E).
        exists pos. split; [assumption|].
        split; [now apply list_index_some in Hpos|]. congruence.
      + intros Hni. destruct (Nat.leb_spec (len v) 2) as [Hshort|Hlong].
        * rewrite compress_cell_short in Hc' by assumption. congruence.
        * destruct (compress_cell_built table row i v
                      (Hin row (or_introl eq_refl)) Hv Hlong)
            as (pos & Hpos & _).
          exfalso. apply Hni. apply list_index_some in Hpos as [Hn' _].
          now apply nth_error_In in Hn'.
    - apply IH. intros r I. apply Hin. now right. }
  apply G; auto.
Qed.

(** C5: every sequence of the conversion map has no duplicate, does not
    contain the empty string, and holds exactly the values of its column
    that are longer than two characters; the column of two empty cells,
    hello world twice and hi gives the sequence hello world alone. *)
Theorem C5_sequences (table : Table) (i : nat) (s : list string)
  (Hs : dict_get Nat.eqb i (get_conversion_map table) = Some s) :
  NoDup s /\
  ~ In EmptyString s /\
  (forall v, In v s <-> In v (column i table) /\ (2 < len v)%nat) /\
  (column i table = greeting_column -> s = ["hello world"]).
Proof.
  destruct (conversion_map_entry _ _ _ Hs) as (d & Hok & E).
  split; [|split; [|split]].
  - subst s. now apply (rank_column_nodup _ _ Hok).
  - subst s. intros I. apply (rank_column_in _ _ _ Hok) in I as [Hlen _].
    simpl in Hlen. lia.
  - intros v. subst s. rewrite (rank_column_in _ _ _ Hok). tauto.
  - intros Hcol. rewrite conversion_map_get, Hcol in Hs.
    vm_compute in Hs. now injection Hs as <-.
Qed.

Lemma C5_sequences_witness :
  NoDup ["hello world"] /\
  ~ In EmptyString ["hello world"] /\
  (forall v, In v ["hello world"] <->
             In v (column 0 greeting_table) /\ (2 < len v)%nat) /\
  (column 0 greeting_table = greeting_column ->
   ["hello world"] = ["hello world"]).
Proof.
  apply (C5_sequences greeting_table 0 ["hello world"]).
  reflexivity.
Defined.

(** C6: a cell of at most two characters is left as it is by the encoder,
    whatever the map, alone and in its row; when it does not start with
    the marker, the decoder leaves it as it is too. *)
Theorem C6_short_cells (m : ConversionMap) (lm : LoadedMap) (i : nat)
  (v : string) (Hshort : (len v <= 2)%nat) :
  compress_cell m i v = Done v /\
  (forall row row',
     nth_error row i = Some v -> compress_row m row = Done row' ->
     nth_error row' i = Some v) /\
  (startswith v "&" = false ->
   decompress_cell lm i v = Done v /\
   forall row row',
     nth_error row i = Some v -> decompress_row lm row = Done row' ->
     nth_error row' i = Some v).
Proof.
  split; [now apply compress_cell_short|]. split.
  - intros row row' Hv Hrow. unfold compress_row in Hrow.
    rewrite compress_row_from_cells in Hrow.
    apply cells_from_done in Hrow as [_ Hcells].
    destruct (Hcells i v Hv) as (c & Hc & Hn). simpl in Hc.
    rewrite compress_cell_short in Hc by assumption. congruence.
  - intros Hfree. split; [now apply decompress_cell_literal|].
    intros row row' Hv Hrow. unfold decompress_row in Hrow.
    rewrite decompress_row_from_cells in Hrow.
    apply cells_from_done in Hrow as [_ Hcells].
    destruct (Hcells i v Hv) as (c & Hc & Hn). simpl in Hc.
    rewrite decompress_cell_literal in Hc by assumption. congruence.
Qed.

Lemma C6_short_cells_witness :
  compress_cell [(0, ["hello"])] 0 "hi" = Done "hi" /\
  decompress_cell [("0", ["hello"])] 0 "hi" = Done "hi".
Proof.
  pose proof (C6_short_cells [(0, ["hello"])] [("0", ["hello"])] 0 "hi") as H.
  simpl in H. destruct (H (le_n 2)) as (Hc & _ & Hd).
  split; [exact Hc|]. exact (proj1 (Hd eq_refl)).
Defined.

(** C7: in a map with one entry per column key, the decoder returns a row
    exactly when every marker-prefixed cell resolves, and in the row it
    returns a cell made of the marker and a suffix is replaced by the
    element, at the index the suffix parses to, of the sequence held under
    its column index, while every other cell is left as it is; the
    reference to position [pos] of a sequence is replaced by the element at
    [pos]. *)
Theorem C7_decoder (lm : LoadedMap) (row row' : Row)
  (Hkeys : NoDup (map fst lm)) :
  (decompress_row lm row = Done row' <->
   List.length row' = List.length row /\
   forall i c, nth_error row i = Some c ->
     exists c', substituted lm i c c' /\ nth_error row' i = Some c') /\
  (forall i l pos v,
     In (str i, l) lm -> nth_error l pos = Some v ->
     decompress_cell lm i ("&" +:+ str pos) = Done v) /\
  (forall i c,
     (forall suffix, c <> String "&" suffix) ->
     decompress_cell lm i c = Done c).
Proof.
  split; [|split].
  - unfold decompress_row. rewrite decompress_row_from_cells, cells_from_spec.
    split; intros [Hlen H]; (split; [assumption|]); intros i c Hc;
      destruct (H i c Hc) as (c' & Hd & Hn); exists c'; simpl in *;
      (split; [now apply decompress_cell_substituted|assumption]).
  - intros i l pos v Il Hv.
    apply (decompress_cell_substituted lm i _ v Hkeys). split.
    + intros suffix [= <-]. exists l, (Z.of_nat pos).
      split; [assumption|]. split; [apply int_str|].
      left. split; [lia|]. now rewrite Nat2Z.id.
    + intros Hno. now destruct (Hno (str pos)).
  - intros i c Hno.
    apply (decompress_cell_substituted lm i c c Hkeys). split.
    + intros suffix E. now destruct (Hno suffix).
    + reflexivity.
Qed.

Lemma C7_decoder_witness :
  decompress_cell [("0", ["apple"; "banana"; "cherry"])] 0 ("&" +:+ str 1)
  = Done "banana".
Proof.
  refine (proj1 (proj2 (C7_decoder [("0", ["apple"; "banana"; "cherry"])]
                          [] [] _))
            0%nat ["apple"; "banana"; "cherry"] 1%nat "banana" _ _).
  - repeat constructor. simpl. tauto.
  - now left.
  - reflexivity.
Defined.

(** C8: when two tables differ in the values of column [j] only, every
    other column [i] has the same entry in the two conversion maps, both
    tables are encoded without error, and in each row the encoded cell of
    column [i] is the same. *)
Theorem C8_column_independence (i j : nat) (table table' : Table)
  (Hij : i <> j) (Hdiffer : differ_in_column j table table') :
  dict_get Nat.eqb i (get_conversion_map table)
  = dict_get Nat.eqb i (get_conversion_map table') /\
  exists written written',
    compress_rows (get_conversion_map table) table = (written, None) /\
    compress_rows (get_conversion_map table') table' = (written', None) /\
    Forall2 (fun coded coded' => nth_error coded i = nth_error coded' i)
      written written'.
Proof.
  assert (Em : dict_get Nat.eqb i (get_conversion_map table)
               = dict_get Nat.eqb i (get_conversion_map table')).
  { rewrite !conversion_map_get.
    now rewrite (differ_in_column_other i j table table' Hij Hdiffer). }
  split; [exact Em|].
  destruct (compress_rows_built table) as [written Hc].
  destruct (compress_rows_built table') as [written' Hc'].
  exists written, written'. split; [assumption|]. split; [assumption|].
  apply write_rows_done in Hc, Hc'.
  revert Hc Hc' Em. generalize (get_conversion_map table) as m.
  generalize (get_conversion_map table') as m'. intros m' m Hc Hc' Em.
  revert written written' Hc Hc'.
  induction Hdiffer as [|row row' rest rest' [_ Hrow] _ IH];
    intros written written' Hc Hc';
    inversion Hc as [|? coded ? ws Hcoded Hws]; subst;
    inversion Hc' as [|? coded' ? ws' Hcoded' Hws']; subst;
    constructor.
  - apply (compress_row_same_entry m m' i row row'); auto.
  - now apply IH.
Qed.

Lemma C8_column_independence_witness :
  dict_get Nat.eqb 0 (get_conversion_map [["apple"; "red"]; ["apple"; "green"]])
  = dict_get Nat.eqb 0 (get_conversion_map [["apple"; "blue"]; ["apple"; "no"]]).
Proof.
  refine (proj1 (C8_column_independence 0 1
                   [["apple"; "red"]; ["apple"; "green"]]
                   [["apple"; "blue"]; ["apple"; "no"]] _ _)).
  - discriminate.
  - repeat constructor;
      intros [|[|[|k]]] Hk; try reflexivity; exfalso; now apply Hk.
Defined.

(** C9: a marker-prefixed cell whose suffix parses as [-k], with [k] from 1
    to the length of the column's sequence, does not raise: it is decoded
    to the element at position length - k, in its row and in the rows
    written. *)
Theorem C9_negative_index (lm : LoadedMap) (i : nat) (l : list string)
  (c : string) (k : nat)
  (Hmarker : startswith c "&" = true)
  (Hl : dict_get String.eqb (str i) lm = Some l)
  (Hint : int (tail c) = Some (- Z.of_nat k)%Z)
  (Hk : (1 <= k <= List.length l)%nat) :
  exists v,
    nth_error l (List.length l - k) = Some v /\
    decompress_cell lm i c = Done v /\
    (forall row row',
       nth_error row i = Some c -> decompress_row lm row = Done row' ->
       nth_error row' i = Some v) /\
    (i = 0%nat -> decompress_rows lm [[c]] = ([[v]], None)).
Proof.
  destruct (nth_error l (List.length l - k)) as [v|] eqn:Ev.
  2:{ apply nth_error_None in Ev. lia. }
  assert (Hcell : decompress_cell lm i c = Done v).
  { unfold decompress_cell.
    now rewrite Hmarker, Hl, Hint, (getitem_negative l k Hk), Ev. }
  exists v. split; [reflexivity|]. split; [exact Hcell|]. split.
  - intros row row' Hc Hrow. unfold decompress_row in Hrow.
    rewrite decompress_row_from_cells in Hrow.
    apply cells_from_done in Hrow as [_ Hcells].
    destruct (Hcells i c Hc) as (c' & Hc' & Hn). simpl in Hc'. congruence.
  - intros ->. unfold decompress_rows, decompress_row. simpl.
    now rewrite Hcell.
Qed.

Lemma C9_negative_index_witness :
  exists v,
    nth_error ["abc"; "def"] (2 - 1) = Some v /\
    decompress_cell [("0", ["abc"; "def"])] 0 "&-1" = Done v /\
    (forall row row',
       nth_error row 0 = Some "&-1" ->
       decompress_row [("0", ["abc"; "def"])] row = Done row' ->
       nth_error row' 0 = Some v) /\
    (0%nat = 0%nat ->
     decompress_rows [("0", ["abc"; "def"])] [["&-1"]] = ([[v]], None)).
Proof.
  apply (C9_negative_index [("0", ["abc"; "def"])] 0 ["abc"; "def"] "&-1" 1).
  - reflexivity.
  - reflexivity.
  - reflexivity.
  - simpl. lia.
Defined.

(** C10, the claim as stated fails: for [hello_table] the decoder reads the
    two transformed rows and no empty row, and the decompressed file is the
    text of the two original rows, not that text after an empty row. *)
Lemma C10_counterexample :
  csv_reader (snd (readline (fst (compress_csv_and_save hello_table))))
  = ([["&0"; "x"]; ["&0"; "y"]], None) /\
  decompress_file_and_save (fst (compress_csv_and_save hello_table))
  = Some (writerows hello_table, None) /\
  writerows hello_table <> writerows ([] :: hello_table).
Proof.
  split; [reflexivity|]. split; [reflexivity|]. discriminate.
Qed.

(** C10, amended: for every table, the compressed file is the JSON text of
    the conversion map, the line ending that the empty row of line 105
    consists of, and the transformed rows; [json.dump] ends no line, so
    [readline] takes that line ending as the end of the map line, and the
    reader yields exactly the transformed rows, with no empty row in front.
    For a table in which no cell of at most two characters starts with the
    marker, the decompressed file is the text of the original rows, with no
    empty row in front. *)
Theorem C10_map_line_ending (table : Table) :
  exists written,
    compress_rows (get_conversion_map table) table = (written, None) /\
    compress_csv_and_save table
    = (json_dump (get_conversion_map table)
       +:+ writerow [] +:+ writerows written, None) /\
    readline (fst (compress_csv_and_save table))
    = (json_dump (get_conversion_map table) +:+ CRLF, writerows written) /\
    csv_reader (snd (readline (fst (compress_csv_and_save table))))
    = (written, None) /\
    (marker_free table ->
     decompress_file_and_save (fst (compress_csv_and_save table))
     = Some (writerows table, None)).
Proof.
  destruct (compress_rows_built table) as [written Hc].
  exists written. rewrite (compressed_file table written Hc). cbn [fst].
  split; [assumption|]. split; [reflexivity|].
  rewrite
    (readline_first_line _ _ (json_dump_no_newline (get_conversion_map table))).
  split; [reflexivity|]. cbn [snd].
  split; [apply csv_reader_writerows|].
  intros Hfree.
  rewrite decompress_written by apply conversion_map_nodup.
  now rewrite (rows_round_trip _ _ _ Hfree Hc).
Qed.

Lemma C10_map_line_ending_witness :
  exists written,
    compress_rows (get_conversion_map hello_table) hello_table
    = (written, None) /\
    compress_csv_and_save hello_table
    = (json_dump (get_conversion_map hello_table)
       +:+ writerow [] +:+ writerows written, None) /\
    readline (fst (compress_csv_and_save hello_table))
    = (json_dump (get_conversion_map hello_table) +:+ CRLF,
       writerows written) /\
    csv_reader (snd (readline (fst (compress_csv_and_save hello_table))))
    = (written, None) /\
    decompress_file_and_save (fst (compress_csv_and_save hello_table))
    = Some (writerows hello_table, None).
Proof.
  destruct (C10_map_line_ending hello_table)
    as (written & H1 & H2 & H3 & H4 & H5).
  exists written. split; [exact H1|]. split; [exact H2|].
  split; [exact H3|]. split; [exact H4|].
  apply H5. intros row v Ir Iv Hlen. simpl in Ir.
  destruct Ir as [<-|[<-|[]]]; simpl in Iv;
    destruct Iv as [<-|[<-|[]]]; reflexivity.
Defined.

(** ** Where a loop stops *)

Lemma write_rows_failed (g : Row -> result Row) (table : Table) :
  forall written e,
    write_rows g table = (written, Some e) ->
    exists before row after,
      table = before ++ row :: after /\
      Forall2 (fun r r' => g r = Done r') before written /\
      g row = Raise e.
Proof.
  induction table as [|row rest IH]; intros written e; simpl; [discriminate|].
  destruct (g row) as [row'|e0] eqn:Eg.
  - destruct (write_rows g rest) as [w e1] eqn:Ew.
    intros [= <- ->]. destruct (IH w e eq_refl) as (b & r & a & -> & Hb & Hr).
    exists (row :: b), r, a. split; [reflexivity|].
    split; [now constructor|assumption].
  - intros [= <- <-]. exists [], row, rest.
    split; [reflexivity|]. split; [constructor|assumption].
Qed.

Lemma cells_from_failed (f : nat -> string -> result string) (row : Row) :
  forall k e,
    cells_from f k row = Raise e ->
    exists j v,
      nth_error row j = Some v /\ f (k + j)%nat v = Raise e /\
      forall j' v', (j' < j)%nat -> nth_error row j' = Some v' ->
        exists c, f (k + j')%nat v' = Done c.
Proof.
  induction row as [|x rest IH]; intros k e; simpl; [discriminate|].
  destruct (f k x) as [c|e0] eqn:Ef; simpl.
  - destruct (cells_from f (S k) rest) as [rest'|e1] eqn:Er; simpl;
      [discriminate|].
    intros [= ->]. destruct (IH _ _ Er) as (j & v & Hj & Hv & Hleft).
    exists (S j), v. split; [assumption|].
    split; [now replace (k + S j)%nat with (S k + j)%nat by lia|].
    intros [|j'] v' Hlt Hn; simpl in Hn.
    + injection Hn as <-. exists c. now rewrite Nat.add_0_r.
    + destruct (Hleft j' v') as [c' Hc']; [lia|assumption|].
      exists c'. now replace (k + S j')%nat with (S k + j')%nat by lia.
  - intros [= ->]. exists 0%nat, x. split; [reflexivity|].
    split; [now rewrite Nat.add_0_r|]. intros j' v' Hlt. lia.
Qed.

Lemma compress_cell_raise (m : ConversionMap) (i : nat) (v : string) (e : exn) :
  compress_cell m i v = Raise e ->
  e = ValueError /\ (2 < len v)%nat /\ ~ In v (column_list m i).
Proof.
  unfold compress_cell. destruct (Nat.leb_spec (len v) 2); [discriminate|].
  destruct (list_index v (column_list m i)) eqn:E; [discriminate|].
  intros [= <-]. split; [reflexivity|]. split; [assumption|].
  now apply list_index_none.
Qed.

Lemma compress_cell_done (m : ConversionMap) (i : nat) (v : string) :
  (exists c, compress_cell m i v = Done c) <->
  ((2 < len v)%nat -> In v (column_list m i)).
Proof.
  split.
  - intros [c Hc] Hlong.
    destruct (compress_cell_long _ _ _ _ Hlong Hc) as (l & pos & Hl & Hp & _).
    unfold column_list. rewrite Hl.
    apply list_index_some in Hp as [Hn _]. now apply nth_error_In in Hn.
  - intros H. destruct (Nat.leb_spec (len v) 2) as [Hs|Hl].
    + exists v. now apply compress_cell_short.
    + destruct (list_index_in _ _ (H Hl)) as [pos Hpos].
      exists ("&" +:+ str pos). unfold compress_cell. rewrite Hpos.
      now destruct (Nat.leb_spec (len v) 2); [lia|].
Qed.

Lemma getitem_none {A : Type} (l : list A) (pos : Z) :
  getitem l pos = None ->
  (pos < - Z.of_nat (List.length l) \/ Z.of_nat (List.length l) <= pos)%Z.
Proof.
  unfold getitem. destruct (Z.leb_spec 0 pos) as [Hp|Hp].
  - intros Hn. apply nth_error_None in Hn. lia.
  - destruct (Z.leb_spec (- Z.of_nat (List.length l)) pos) as [Hq|Hq]; [|lia].
    intros Hn. apply nth_error_None in Hn. lia.
Qed.

Lemma decompress_cell_raise (lm : LoadedMap) (i : nat) (c : string) (e : exn) :
  decompress_cell lm i c = Raise e ->
  startswith c "&" = true /\
  ((e = KeyError /\ dict_get String.eqb (str i) lm = None) \/
   (e = ValueError /\
    dict_get String.eqb (str i) lm <> None /\ int (tail c) = None) \/
   (e = IndexError /\
    exists l pos,
      dict_get String.eqb (str i) lm = Some l /\
      int (tail c) = Some pos /\
      (pos < - Z.of_nat (List.length l) \/ Z.of_nat (List.length l) <= pos)%Z)).
Proof.
  unfold decompress_cell. destruct (startswith c "&"); [|discriminate].
  intros H. split; [reflexivity|]. revert H.
  destruct (dict_get String.eqb (str i) lm) as [l|].
  - destruct (int (tail c)) as [pos|].
    + destruct (getitem l pos) eqn:Eg; [discriminate|]. intros [= <-].
      right. right. split; [reflexivity|]. exists l, pos.
      split; [reflexivity|]. split; [reflexivity|]. now apply getitem_none.
    + intros [= <-]. right. left. split; [reflexivity|]. now split.
  - intros [= <-]. left. now split.
Qed.

Lemma Forall2_in_l {A B : Type} (P : A -> B -> Prop) (l : list A) (l' : list B)
  (a : A) :
  Forall2 P l l' -> In a l -> exists b, P a b.
Proof.
  induction 1 as [|x y l l' Hxy _ IH]; intros I; [destruct I|].
  destruct I as [<-|I]; [now exists y|auto].
Qed.

Lemma Forall2_chain {A B C : Type} (P : A -> B -> Prop) (Q : B -> C -> Prop)
  (R : A -> C -> Prop) :
  (forall a b c, P a b -> Q b c -> R a c) ->
  forall l l' l'', Forall2 P l l' -> Forall2 Q l' l'' -> Forall2 R l l''.
Proof.
  intros H l l' l'' HP. revert l''.
  induction HP as [|a b l l' Hab _ IH]; intros l'' HQ;
    inversion HQ as [|? c ? l3 Hbc HQ']; subst; constructor; eauto.
Qed.

Lemma count_column_long (cells : list string) :
  forall o : option Counter,
    fold_left count_column_cell (long_cells cells) o
    = fold_left count_column_cell cells o.
Proof.
  induction cells as [|c cells IH]; intros o; [reflexivity|].
  unfold long_cells. cbn [filter]. fold (long_cells cells).
  destruct (len c <=? 2)%nat eqn:E; cbn [negb fold_left]; rewrite IH.
  - replace (count_column_cell o c) with o; [reflexivity|].
    unfold count_column_cell. now rewrite E.
  - reflexivity.
Qed.

Lemma count_row_short (row : Row) :
  forall (cc : ColumnsCounter) (k : nat),
    (forall v, In v row -> (len v <= 2)%nat) -> count_row cc k row = cc.
Proof.
  induction row as [|v rest IH]; intros cc k H; [reflexivity|].
  cbn [count_row]. unfold count_cell.
  destruct (Nat.leb_spec (len v) 2) as [_|Hl].
  - apply IH. intros x I. apply H. now right.
  - specialize (H v (or_introl eq_refl)). lia.
Qed.

Lemma cells_from_short (m : ConversionMap) (row : Row) :
  forall k,
    (forall v, In v row -> (len v <= 2)%nat) ->
    cells_from (compress_cell m) k row = Done row.
Proof.
  induction row as [|v rest IH]; intros k H; [reflexivity|].
  cbn [cells_from].
  rewrite compress_cell_short by (apply H; now left).
  cbn [Py.bind]. rewrite IH; [reflexivity|].
  intros x I. apply H. now right.
Qed.

Lemma cells_from_literal (lm : LoadedMap) (row : Row) :
  forall k,
    (forall c, In c row -> startswith c "&" = false) ->
    cells_from (decompress_cell lm) k row = Done row.
Proof.
  induction row as [|c rest IH]; intros k H; [reflexivity|].
  cbn [cells_from].
  rewrite decompress_cell_literal by (apply H; now left).
  cbn [Py.bind]. rewrite IH; [reflexivity|].
  intros x I. apply H. now right.
Qed.

Lemma write_rows_same (g : Row -> result Row) (table : Table) :
  (forall row, In row table -> g row = Done row) ->
  write_rows g table = (table, None).
Proof.
  induction table as [|row rest IH]; intros H; [reflexivity|].
  cbn [write_rows]. rewrite (H row) by now left.
  rewrite IH; [reflexivity|]. intros r I. apply H. now right.
Qed.

(** ** Further properties of the two programs *)

(** X1: the conversion map has an entry for a column exactly when some cell
    of that column is longer than two characters; the sequence of an entry
    is never empty, and no column has two entries. *)
Theorem X1_map_keys (table : Table) (i : nat) :
  (dict_get Nat.eqb i (get_conversion_map table) = None <->
   forall c, In c (column i table) -> (len c <= 2)%nat) /\
  (forall s, dict_get Nat.eqb i (get_conversion_map table) = Some s ->
             s <> []) /\
  NoDup (map fst (get_conversion_map table)).
Proof.
  split; [|split].
  - rewrite conversion_map_get.
    destruct (count_column_ok (column i table)) as [_ Hnone].
    rewrite <- Hnone.
    destruct (count_column (column i table)); simpl;
      split; (discriminate || reflexivity).
  - intros s Hs Hnil. subst s.
    destruct (conversion_map_entry _ _ _ Hs) as (d & Hok & E).
    rewrite conversion_map_get in Hs.
    destruct (count_column_ok (column i table)) as [_ Hnone].
    destruct (count_column (column i table)) as [d'|] eqn:Ec; [|discriminate].
    destruct (existsb (fun c => negb (len c <=? 2)%nat) (column i table))
      eqn:Ex.
    + apply existsb_exists in Ex as (c & Ic & Hc).
      apply negb_true_iff, Nat.leb_gt in Hc.
      assert (I : In c (rank_column d))
        by (apply (rank_column_in _ _ _ Hok); tauto).
      rewrite <- E in I. destruct I.
    + assert (Hall : forall c, In c (column i table) -> (len c <= 2)%nat).
      { intros c Ic. destruct (Nat.leb_spec (len c) 2) as [|Hl]; [assumption|].
        assert (Et : existsb (fun c => negb (len c <=? 2)%nat)
                       (column i table) = true).
        { apply existsb_exists. exists c. split; [assumption|].
          apply negb_true_iff, Nat.leb_gt. exact Hl. }
        congruence. }
      apply Hnone in Hall. discriminate.
  - apply conversion_map_nodup.
Qed.

(** X2: when no cell of the table is longer than two characters, the
    conversion map is empty, the encoder hands every row to the writer
    unchanged, and the compressed file is the empty JSON object, a line
    ending and the rows of the table. *)
Theorem X2_short_table (table : Table)
  (Hshort : forall row v, In row table -> In v row -> (len v <= 2)%nat) :
  get_conversion_map table = [] /\
  compress_rows (get_conversion_map table) table = (table, None) /\
  compress_csv_and_save table = ("{}" +:+ CRLF +:+ writerows table, None).
Proof.
  assert (Em : get_conversion_map table = []).
  { unfold get_conversion_map, count_table.
    assert (G : forall rows cc,
              (forall row, In row rows -> In row table) ->
              fold_left (fun cc row => count_row cc 0 row) rows cc = cc).
    { induction rows as [|row rows IH]; intros cc Hin; [reflexivity|].
      cbn [fold_left]. rewrite count_row_short.
      - apply IH. intros r I. apply Hin. now right.
      - intros v Iv. apply (Hshort row); [apply Hin; now left|assumption]. }
    rewrite G by auto. reflexivity. }
  assert (Er : compress_rows (get_conversion_map table) table = (table, None)).
  { unfold compress_rows. apply write_rows_same. intros row Ir.
    unfold compress_row. rewrite compress_row_from_cells.
    apply cells_from_short. intros v Iv. now apply (Hshort row). }
  split; [exact Em|]. split; [exact Er|].
  unfold compress_csv_and_save. rewrite Er, Em. reflexivity.
Qed.

Lemma X2_short_table_witness :
  get_conversion_map [["hi"; "x"]; [EmptyString]] = [] /\
  compress_rows (get_conversion_map [["hi"; "x"]; [EmptyString]])
    [["hi"; "x"]; [EmptyString]]
  = ([["hi"; "x"]; [EmptyString]], None) /\
  compress_csv_and_save [["hi"; "x"]; [EmptyString]]
  = ("{}" +:+ CRLF +:+ writerows [["hi"; "x"]; [EmptyString]], None).
Proof.
  apply (X2_short_table [["hi"; "x"]; [EmptyString]]).
  intros row v Ir Iv. simpl in Ir.
  destruct Ir as [<-|[<-|[]]]; simpl in Iv.
  - destruct Iv as [<-|[<-|[]]]; simpl; lia.
  - destruct Iv as [<-|[]]; simpl; lia.
Defined.

(** X3: after the scan, the counter of a column holds exactly the values of
    the column that are longer than two characters, each with the number of
    its occurrences in the column. *)
Theorem X3_counter (table : Table) (i : nat) (d : Counter)
  (Hd : dict_get Nat.eqb i (count_table table) = Some d) :
  NoDup (map fst d) /\
  forall v n,
    dict_get String.eqb v d = Some n <->
    (2 < len v)%nat /\ In v (column i table) /\
    n = occurrences v (column i table).
Proof.
  rewrite count_table_get in Hd.
  destruct (count_column_ok (column i table)) as [Hok _].
  rewrite Hd in Hok. simpl in Hok.
  split; [apply (ok_nodup _ _ Hok)|].
  intros v n. rewrite <- (ok_entries _ _ Hok). split.
  - apply (dict_get_in String.eqb string_eqb_spec).
  - apply (in_dict_get String.eqb string_eqb_spec), (ok_nodup _ _ Hok).
Qed.

Lemma X3_counter_witness :
  NoDup (map fst [("apple", 3%nat); ("banana", 2%nat); ("cherry", 1%nat)]) /\
  forall v n,
    dict_get String.eqb v
      [("apple", 3%nat); ("banana", 2%nat); ("cherry", 1%nat)] = Some n <->
    (2 < len v)%nat /\ In v (column 0 fruit_table) /\
    n = occurrences v (column 0 fruit_table).
Proof.
  apply (X3_counter fruit_table 0). reflexivity.
Defined.

(** X4: for any conversion map, encoding a table returns without exception
    exactly when every cell longer than two characters is in the sequence
    that the map has for its column. *)
Theorem X4_encoding_succeeds (m : ConversionMap) (table : Table) :
  (exists written, compress_rows m table = (written, None)) <->
  covers m table.
Proof.
  unfold compress_rows, compress_row. split.
  - intros [written H] row i v Ir Hv Hlong.
    apply write_rows_done in H.
    destruct (Forall2_in_l _ _ _ _ H Ir) as [row' Hrow].
    rewrite compress_row_from_cells in Hrow.
    apply cells_from_done in Hrow as [_ Hcells].
    destruct (Hcells i v Hv) as (c & Hc & _). simpl in Hc.
    apply (proj1 (compress_cell_done m i v)); eauto.
  - intros Hcov. apply write_rows_total. intros row Ir.
    rewrite compress_row_from_cells. apply cells_from_total.
    intros j v Hv. simpl. apply compress_cell_done.
    intros Hlong. now apply (Hcov row).
Qed.

(** X5: when encoding stops with an exception, the exception is
    [ValueError], the rows handed to the writer are the encoded rows that
    precede the first row with a cell longer than two characters that is
    not in the sequence of its column, and that row is not written. *)
Theorem X5_encoding_fails (m : ConversionMap) (table written : Table) (e : exn)
  (H : compress_rows m table = (written, Some e)) :
  e = ValueError /\
  exists before row after i v,
    table = before ++ row :: after /\
    Forall2 (fun r r' => compress_row m r = Done r') before written /\
    nth_error row i = Some v /\ (2 < len v)%nat /\
    ~ In v (column_list m i).
Proof.
  apply write_rows_failed in H as (before & row & after & -> & Hb & Hrow).
  unfold compress_row in Hrow. rewrite compress_row_from_cells in Hrow.
  apply cells_from_failed in Hrow as (i & v & Hv & Hcell & _). simpl in Hcell.
  apply compress_cell_raise in Hcell as (-> & Hlong & Hni).
  split; [reflexivity|]. exists before, row, after, i, v. tauto.
Qed.

Lemma X5_encoding_fails_witness :
  ValueError = ValueError /\
  exists before row after i v,
    [["apple"]; ["pears"]; ["apple"]] = before ++ row :: after /\
    Forall2 (fun r r' => compress_row [(0%nat, ["apple"])] r = Done r')
      before [["&0"]] /\
    nth_error row i = Some v /\ (2 < len v)%nat /\
    ~ In v (column_list [(0%nat, ["apple"])] i).
Proof.
  apply (X5_encoding_fails [(0%nat, ["apple"])]
           [["apple"]; ["pears"]; ["apple"]] [["&0"]] ValueError).
  reflexivity.
Defined.

(** X6: when decoding stops with an exception, the rows written are the
    decoded rows that precede the first row that holds a malformed
    reference; the cells to the left of the first such cell of that row
    decode, and the exception tells what is wrong with it: [KeyError] for a
    column without entry, [ValueError] for a suffix that [int] rejects,
    [IndexError] for an index outside the sequence. *)
Theorem X6_decoding_fails (lm : LoadedMap) (table written : Table) (e : exn)
  (H : decompress_rows lm table = (written, Some e)) :
  exists before row after i c,
    table = before ++ row :: after /\
    Forall2 (fun r r' => decompress_row lm r = Done r') before written /\
    nth_error row i = Some c /\ startswith c "&" = true /\
    (forall j c', (j < i)%nat -> nth_error row j = Some c' ->
       exists v, decompress_cell lm j c' = Done v) /\
    ((e = KeyError /\ dict_get String.eqb (str i) lm = None) \/
     (e = ValueError /\
      dict_get String.eqb (str i) lm <> None /\ int (tail c) = None) \/
     (e = IndexError /\
      exists l pos,
        dict_get String.eqb (str i) lm = Some l /\
        int (tail c) = Some pos /\
        (pos < - Z.of_nat (List.length l) \/
         Z.of_nat (List.length l) <= pos)%Z)).
Proof.
  apply write_rows_failed in H as (before & row & after & -> & Hb & Hrow).
  unfold decompress_row in Hrow. rewrite decompress_row_from_cells in Hrow.
  apply cells_from_failed in Hrow as (i & c & Hc & Hcell & Hleft).
  simpl in Hcell, Hleft.
  apply decompress_cell_raise in Hcell as [Hmarker Hwhy].
  exists before, row, after, i, c. tauto.
Qed.

Lemma X6_decoding_fails_witness :
  exists before row after i c,
    [["&0"; "x"]; ["ok"; "&7"]] = before ++ row :: after /\
    Forall2 (fun r r' => decompress_row [("0", ["abc"])] r = Done r')
      before [["abc"; "x"]] /\
    nth_error row i = Some c /\ startswith c "&" = true /\
    (forall j c', (j < i)%nat -> nth_error row j = Some c' ->
       exists v, decompress_cell [("0", ["abc"])] j c' = Done v) /\
    ((KeyError = KeyError /\
      dict_get String.eqb (str i) [("0", ["abc"])] = None) \/
     (KeyError = ValueError /\
      dict_get String.eqb (str i) [("0", ["abc"])] <> None /\
      int (tail c) = None) \/
     (KeyError = IndexError /\
      exists l pos,
        dict_get String.eqb (str i) [("0", ["abc"])] = Some l /\
        int (tail c) = Some pos /\
        (pos < - Z.of_nat (List.length l) \/
         Z.of_nat (List.length l) <= pos)%Z)).
Proof.
  apply (X6_decoding_fails [("0", ["abc"])] [["&0"; "x"]; ["ok"; "&7"]]
           [["abc"; "x"]] KeyError).
  reflexivity.
Defined.

(** X7: the map need not be the one built from the table: with any map that
    covers the table, and no cell of at most two characters that starts
    with the marker, encoding succeeds and decoding with the same map gives
    back the table. *)
Theorem X7_round_trip_any_map (m : ConversionMap) (table : Table)
  (Hcovers : covers m table) (Hfree : marker_free table) :
  exists written,
    compress_rows m table = (written, None) /\
    decompress_rows (loaded m) written = (table, None).
Proof.
  assert (Hc : exists written, compress_rows m table = (written, None)).
  { unfold compress_rows, compress_row. apply write_rows_total. intros row Ir.
    rewrite compress_row_from_cells. apply cells_from_total.
    intros j v Hv. simpl. apply compress_cell_done.
    intros Hlong. now apply (Hcovers row). }
  destruct Hc as [written Hc]. exists written.
  split; [assumption|]. now apply rows_round_trip.
Qed.

Lemma X7_round_trip_any_map_witness :
  exists written,
    compress_rows [(0%nat, ["zebra"; "apple"]); (1%nat, ["green"])]
      [["apple"; "green"]; ["apple"; "no"]]
    = (written, None) /\
    decompress_rows
      (loaded [(0%nat, ["zebra"; "apple"]); (1%nat, ["green"])]) written
    = ([["apple"; "green"]; ["apple"; "no"]], None).
Proof.
  apply (X7_round_trip_any_map
           [(0%nat, ["zebra"; "apple"]); (1%nat, ["green"])]
           [["apple"; "green"]; ["apple"; "no"]]).
  - intros row i v Ir Hv Hlong. simpl in Ir.
    destruct Ir as [<-|[<-|[]]];
      (destruct i as [|[|[|i]]]; simpl in Hv; try discriminate;
       injection Hv as <-; first [simpl in Hlong; lia | simpl; auto]).
  - intros row v Ir Iv Hlen. simpl in Ir.
    destruct Ir as [<-|[<-|[]]]; simpl in Iv;
      destruct Iv as [<-|[<-|[]]]; reflexivity.
Defined.

(** X8: whatever the table, a round trip that ends without exception keeps
    the number of rows and of cells, and gives back every cell that is
    longer than two characters or does not start with the marker: only a
    cell of at most two characters that starts with the marker can come
    back changed. *)
Theorem X8_round_trip_damage (m : ConversionMap) (table written table' : Table)
  (Hc : compress_rows m table = (written, None))
  (Hd : decompress_rows (loaded m) written = (table', None)) :
  Forall2
    (fun row row' =>
       List.length row' = List.length row /\
       forall i v, nth_error row i = Some v ->
         (2 < len v)%nat \/ startswith v "&" = false ->
         nth_error row' i = Some v)
    table table'.
Proof.
  apply write_rows_done in Hc, Hd.
  refine (Forall2_chain _ _ _ _ _ _ _ Hc Hd).
  intros row coded row' Hrow Hrow'. cbv beta in Hrow, Hrow'.
  unfold compress_row in Hrow. unfold decompress_row in Hrow'.
  rewrite compress_row_from_cells in Hrow.
  rewrite decompress_row_from_cells in Hrow'.
  apply cells_from_done in Hrow as [Hlen Hcells].
  apply cells_from_done in Hrow' as [Hlen' Hcells'].
  split; [lia|]. intros i v Hv Hkeep.
  destruct (Hcells i v Hv) as (c & Hcv & Hn).
  destruct (Hcells' i c Hn) as (c' & Hcv' & Hn'). simpl in Hcv, Hcv'.
  rewrite (cell_round_trip m i v c) in Hcv'; [congruence| |assumption].
  intros Hshort. destruct Hkeep as [Hlong|Hlit]; [lia|assumption].
Qed.

Lemma X8_round_trip_damage_witness :
  Forall2
    (fun row row' =>
       List.length row' = List.length row /\
       forall i v, nth_error row i = Some v ->
         (2 < len v)%nat \/ startswith v "&" = false ->
         nth_error row' i = Some v)
    marker_table [["abc"]; ["abc"]].
Proof.
  apply (X8_round_trip_damage (get_conversion_map marker_table) marker_table
           [["&0"]; ["&0"]] [["abc"]; ["abc"]]); reflexivity.
Defined.

(** X9: the decoder changes nothing in a table without a cell that starts
    with the marker, and cannot fail on it, whatever the map. *)
Theorem X9_decoding_literals (lm : LoadedMap) (table : Table)
  (Hplain : forall row c,
     In row table -> In c row -> startswith c "&" = false) :
  decompress_rows lm table = (table, None).
Proof.
  unfold decompress_rows. apply write_rows_same. intros row Ir.
  unfold decompress_row. rewrite decompress_row_from_cells.
  apply cells_from_literal. intros c Ic. now apply (Hplain row).
Qed.

Lemma X9_decoding_literals_witness :
  decompress_rows [] [["a&b"; "hello"]; []] = ([["a&b"; "hello"]; []], None).
Proof.
  apply (X9_decoding_literals [] [["a&b"; "hello"]; []]).
  intros row c Ir Ic. simpl in Ir.
  destruct Ir as [<-|[<-|[]]]; simpl in Ic.
  - destruct Ic as [<-|[<-|[]]]; reflexivity.
  - destruct Ic.
Defined.

(** X10: when the sequence of a column has at most ten values, the coded
    reference of a cell of that column is two characters long, so it is
    shorter than the value it stands for. *)
Theorem X10_short_codes (m : ConversionMap) (i : nat) (v c : string)
  (Hlong : (2 < len v)%nat)
  (Hten : (List.length (column_list m i) <= 10)%nat)
  (Hc : compress_cell m i v = Done c) :
  len c = 2%nat /\ (len c < len v)%nat.
Proof.
  destruct (compress_cell_long _ _ _ _ Hlong Hc) as (l & pos & Hl & Hp & ->).
  unfold column_list in Hten. rewrite Hl in Hten.
  apply list_index_some in Hp as [_ Hpos].
  assert (E : len ("&" +:+ str pos) = 2%nat).
  { do 10 (destruct pos as [|pos]; [reflexivity|]). lia. }
  rewrite E. split; [reflexivity|assumption].
Qed.

Lemma X10_short_codes_witness :
  len "&1" = 2%nat /\ (len "&1" < len "banana")%nat.
Proof.
  apply (X10_short_codes [(0%nat, ["apple"; "banana"; "cherry"])] 0
           "banana" "&1").
  - simpl. lia.
  - simpl. lia.
  - reflexivity.
Defined.

(** X11: for every table, the file that [compress_csv_and_save] writes is
    read back in full by the decoder: it loads the conversion map that was
    built, with the column indices as strings, and its output is the text
    of the rows that decoding the transformed rows gives, up to the row
    that raises, if any, together with that exception. *)
Theorem X11_compressed_file_read (table : Table) :
  exists written,
    compress_rows (get_conversion_map table) table = (written, None) /\
    json_loads (fst (readline (fst (compress_csv_and_save table))))
    = Some (loaded (get_conversion_map table)) /\
    decompress_file_and_save (fst (compress_csv_and_save table))
    = Some
        (writerows
           (fst (decompress_rows (loaded (get_conversion_map table)) written)),
         snd (decompress_rows (loaded (get_conversion_map table)) written)).
Proof.
  destruct (compress_rows_built table) as [written Hc].
  exists written. rewrite (compressed_file table written Hc). cbn [fst].
  split; [assumption|].
  rewrite
    (readline_first_line _ _ (json_dump_no_newline (get_conversion_map table))).
  cbn [fst].
  split; [apply json_loads_dump, conversion_map_nodup|].
  rewrite decompress_written by apply conversion_map_nodup.
  now destruct (decompress_rows (loaded (get_conversion_map table)) written).
Qed.

(** X12: cells of at most two characters have no influence on the
    conversion map: two tables whose columns [i] hold the same longer cells
    in the same order have the same entry for column [i]. *)
Theorem X12_short_cells_ignored (table table' : Table) (i : nat)
  (Hsame : long_cells (column i table) = long_cells (column i table')) :
  dict_get Nat.eqb i (get_conversion_map table)
  = dict_get Nat.eqb i (get_conversion_map table').
Proof.
  rewrite !conversion_map_get. unfold count_column.
  rewrite <- (count_column_long (column i table)).
  rewrite <- (count_column_long (column i table')).
  now rewrite Hsame.
Qed.

Lemma X12_short_cells_ignored_witness :
  dict_get Nat.eqb 0
    (get_conversion_map [["apple"]; ["no"]; ["pears"]; ["apple"]])
  = dict_get Nat.eqb 0
      (get_conversion_map [["apple"]; ["pears"]; [EmptyString]; ["apple"]]).
Proof.
  apply (X12_short_cells_ignored
           [["apple"]; ["no"]; ["pears"]; ["apple"]]
           [["apple"]; ["pears"]; [EmptyString]; ["apple"]] 0).
  reflexivity.
Defined.

(** X13: in one column, two cells longer than two characters get the same
    coded reference only when they are the same value, whatever the map. *)
Theorem X13_codes_distinct (m : ConversionMap) (i : nat) (v v' c : string)
  (Hv : (2 < len v)%nat) (Hv' : (2 < len v')%nat)
  (Hc : compress_cell m i v = Done c)
  (Hc' : compress_cell m i v' = Done c) :
  v = v'.
Proof.
  destruct (compress_cell_long _ _ _ _ Hv Hc) as (l & pos & Hl & Hp & ->).
  destruct (compress_cell_long _ _ _ _ Hv' Hc') as (l' & pos' & Hl' & Hp' & E).
  injection E as E. apply str_inj in E. subst pos'.
  assert (l' = l) by congruence. subst l'.
  apply list_index_some in Hp as [Hn _].
  apply list_index_some in Hp' as [Hn' _]. congruence.
Qed.

Lemma X13_codes_distinct_witness : "banana" = "banana".
Proof.
  apply (X13_codes_distinct [(0%nat, ["apple"; "banana"])] 0
           "banana" "banana" "&1").
  - simpl. lia.
  - simpl. lia.
  - reflexivity.
  - reflexivity.
Defined.
